(** * synopsysctl: resource composition and cluster command dispatch

    A shallow embedding of two Go sources:

    - [Creater.init] of package [blackduck], which queues on a horizon
      deployer the objects of one Black Duck instance (module [Blackduck]);
    - the command helpers of package [synopsysctl] in
      [pkg/synopsysctl/utils.go] (module [Synopsysctl]).

    Go strings are [string], slices are lists read with stdpp's lookup,
    [map[string]runtime.Object] is a [gmap string _], a nil-able pointer is
    an [option], and a run-time panic is an explicit outcome. *)

From stdpp Require Import base strings list gmap.

Local Open Scope string_scope.
Local Open Scope list_scope.

(** ** Package blackduck *)

Module Blackduck.

(** [v1.PVCClaim]-like declaration: the three fields [init] reads. *)
Record PVC : Type := mkPVC {
  Name : string;
  Size : string;
  StorageClass : string
}.

(** [horizonapi.PVCAccessModeType]. *)
Inductive PVCAccessModeType : Type :=
| ReadWriteOnce
| ReadOnlyMany
| ReadWriteMany.

(** The [switch claim.Name] of [init], lines 72-124: every recognised case
    first assigns its default and then lets a non-empty [claim.Size]
    override it; the [default:] case takes [claim.Size] as it is. *)
Definition overridden (dflt : string) (claim : PVC) : string :=
  let size := dflt in
  if bool_decide (0 < String.length (Size claim)) then Size claim else size.

Definition resolveSize (claim : PVC) : string :=
  if Name claim =? "blackduck-postgres" then overridden "150Gi" claim
  else if Name claim =? "blackduck-authentication" then overridden "2Gi" claim
  else if Name claim =? "blackduck-cfssl" then overridden "2Gi" claim
  else if Name claim =? "blackduck-registration" then overridden "2Gi" claim
  else if Name claim =? "blackduck-solr" then overridden "2Gi" claim
  else if Name claim =? "blackduck-webapp" then overridden "2Gi" claim
  else if Name claim =? "blackduck-logstash" then overridden "20Gi" claim
  else if Name claim =? "blackduck-zookeeper-data" then overridden "2Gi" claim
  else if Name claim =? "blackduck-zookeeper-datalog" then overridden "2Gi" claim
  else Size claim.

(** The defaults of that switch read as a table: case label to the size
    assigned at the head of the case. *)
Definition defaultSizes : list (string * string) :=
  [ ("blackduck-postgres", "150Gi");
    ("blackduck-authentication", "2Gi");
    ("blackduck-cfssl", "2Gi");
    ("blackduck-registration", "2Gi");
    ("blackduck-solr", "2Gi");
    ("blackduck-webapp", "2Gi");
    ("blackduck-logstash", "20Gi");
    ("blackduck-zookeeper-data", "2Gi");
    ("blackduck-zookeeper-datalog", "2Gi") ].

Fixpoint assoc (name : string) (table : list (string * string)) : option string :=
  match table with
  | [] => None
  | (k, v) :: rest => if name =? k then Some v else assoc name rest
  end.

Definition defaultSizeFor (claimName : string) : option string :=
  assoc claimName defaultSizes.

(** The table as the specification words it, without the [blackduck-]
    prefix of the case labels; kept only to be compared with the code. *)
Definition specDefaultSizes : list (string * string) :=
  [ ("postgres", "150Gi");
    ("authentication", "2Gi");
    ("cfssl", "2Gi");
    ("registration", "2Gi");
    ("solr", "2Gi");
    ("webapp", "2Gi");
    ("logstash", "20Gi");
    ("zookeeper-data", "2Gi");
    ("zookeeper-datalog", "2Gi") ].

Definition specDefaultSizeFor (claimName : string) : option string :=
  assoc claimName specDefaultSizes.

(** The precedence of the specification, over an arbitrary table. *)
Definition specResolve (table : string -> option string) (claim : PVC) : string :=
  if bool_decide (Size claim ≠ "") then Size claim
  else match table (Name claim) with
       | Some d => d
       | None => Size claim
       end.

(** The storage class of lines 67-70. *)
Definition resolveStorageClass (global : string) (claim : PVC) : string :=
  let storageClass := global in
  if bool_decide (0 < String.length (StorageClass claim))
  then StorageClass claim else storageClass.

(** A Go [error] value: [None] is [nil], [Some msg] carries the rendering
    of the error. *)
Definition error : Type := option string.

(** The blackduck API types [init] receives but only passes on. *)
Class Api : Type := {
  PostgresExternalDBConfig : Type;
  ContainerFlavor : Type;
  EnvConfig : Type
}.

(** [v1.BlackduckSpec], restricted to the fields [init] reads. *)
Record BlackduckSpec `{Api} : Type := mkSpec {
  Namespace : string;
  PersistentStorage : bool;
  PVCStorageClass : string;
  PVCs : list PVC;
  ExternalPostgres : option PostgresExternalDBConfig
}.

(** What [init] calls outside this file: the receiver [hc] with its
    secret and config-map builders, the namespace probe, the claim
    constructor of package [util] and the postgres builders of package
    [containers]. Their code is not part of the sources, so they are taken
    as they are typed at the call sites. [GetNamespace] keeps only the
    error of the probe; the claim constructor answers a claim or the
    rendering of its error. *)
Class Collaborators `{Api} : Type := {
  Creater : Type;
  Secret : Type;
  ConfigMap : Type;
  PersistentVolumeClaim : Type;
  ReplicationController : Type;
  Service : Type;
  GetNamespace : Creater -> string -> error;
  createHubSecrets : Creater -> BlackduckSpec -> string -> string -> list Secret;
  createHubConfig : Creater -> BlackduckSpec -> ContainerFlavor -> bool -> list ConfigMap;
  CreatePersistentVolumeClaim :
    string -> string -> string -> string -> PVCAccessModeType ->
    string + PersistentVolumeClaim;
  GetPostgresDeployment :
    Creater -> BlackduckSpec -> ContainerFlavor -> list EnvConfig -> ReplicationController;
  GetPostgresService :
    Creater -> BlackduckSpec -> ContainerFlavor -> list EnvConfig -> Service
}.

(** How a statement of [init] ends: it goes on with a value or leaves the
    function with [return e]. *)
Inductive flow (A : Type) : Type :=
| Next (a : A)
| Return (e : error).
Arguments Next {A} a.
Arguments Return {A} e.

Section Composer.
Context `{Collaborators}.

(** One queued object. The namespace, service account and cluster role
    binding are recorded by the arguments [init] builds them from. *)
Inductive Component : Type :=
| CNamespace (name : string)
| CSecret (s : Secret)
| CServiceAccount (namespace name : string)
| CClusterRoleBinding
    (namespace name serviceAccountName apiGroup roleKind roleName : string)
| CConfigMap (c : ConfigMap)
| CPVC (p : PersistentVolumeClaim)
| CReplicationController (rc : ReplicationController)
| CService (s : Service).

(** The [*horizon.Deployer]: [init] only ever adds to it, so it is the
    sequence of the objects added, oldest first. It is shared with the
    caller: what [init] added before an early [return] stays in it. *)
Definition Deployer : Type := list Component.

(** A statement of [init] acts on the deployer. *)
Definition Stmt (A : Type) : Type := Deployer -> Deployer * flow A.

Definition next {A} (a : A) : Stmt A := fun d => (d, Next a).
Definition leave {A} (e : error) : Stmt A := fun d => (d, Return e).
Definition seq {A B} (c : Stmt A) (k : A -> Stmt B) : Stmt B :=
  fun d => match c d with
           | (d', Next a) => k a d'
           | (d', Return e) => (d', Return e)
           end.
Definition add (c : Component) : Stmt unit := fun d => ((d ++ [c])%list, Next tt).

Declare Scope stmt_scope.
Delimit Scope stmt_scope with stmt.
Bind Scope stmt_scope with Stmt.
Notation "c1 ;; c2" := (seq c1 (fun _ => c2))
  (at level 100, c2 at level 200, right associativity) : stmt_scope.
Local Open Scope stmt_scope.

(** [for _, x := range xs { body x }]. *)
Fixpoint forRange {A} (xs : list A) (body : A -> Stmt unit) : Stmt unit :=
  match xs with
  | [] => next tt
  | x :: rest => body x ;; forRange rest body
  end.

Definition when (b : bool) (c : Stmt unit) : Stmt unit :=
  if b then c else next tt.

(** [p == nil] and [p != nil] on a pointer or an error. *)
Definition isNil {A} (p : option A) : bool :=
  match p with None => true | Some _ => false end.

(** [fmt.Errorf] of line 128. *)
Definition pvcError (name namespace err : string) : string :=
  "failed to create the postgres PVC " +:+ name +:+ " in namespace " +:+
  namespace +:+ " because " +:+ err.

(** Body of the loop over [createHub.PVC], lines 67-130. *)
Definition planClaim (createHub : BlackduckSpec) (claim : PVC) : Stmt unit :=
  let storageClass := resolveStorageClass (PVCStorageClass createHub) claim in
  let size := resolveSize claim in
  match CreatePersistentVolumeClaim (Name claim) (Namespace createHub) size
          storageClass ReadWriteOnce with
  | inl err => leave (Some (pvcError (Name claim) (Namespace createHub) err))
  | inr pvc => add (CPVC pvc)
  end.

(** [func (hc *Creater) init], lines 35-144. *)
Definition init (hc : Creater) (createHub : BlackduckSpec)
    (hubContainerFlavor : ContainerFlavor) (allConfigEnv : list EnvConfig)
    (adminPassword userPassword : string) (isBinaryAnalysisEnabled : bool)
    : Stmt unit :=
  when (negb (isNil (GetNamespace hc (Namespace createHub))))
       (add (CNamespace (Namespace createHub))) ;;
  forRange (createHubSecrets hc createHub adminPassword userPassword)
           (fun secret => add (CSecret secret)) ;;
  add (CServiceAccount (Namespace createHub) (Namespace createHub)) ;;
  add (CClusterRoleBinding (Namespace createHub) (Namespace createHub)
         (Namespace createHub) "" "ClusterRole" "cluster-admin") ;;
  forRange (createHubConfig hc createHub hubContainerFlavor isBinaryAnalysisEnabled)
           (fun configMap => add (CConfigMap configMap)) ;;
  when (PersistentStorage createHub)
       (forRange (PVCs createHub) (planClaim createHub)) ;;
  when (isNil (ExternalPostgres createHub))
       (add (CReplicationController
               (GetPostgresDeployment hc createHub hubContainerFlavor allConfigEnv)) ;;
        add (CService
               (GetPostgresService hc createHub hubContainerFlavor allConfigEnv))) ;;
  leave None.

(** Running [init] on a deployer: the deployer afterwards and the error
    returned. *)
Definition run (c : Stmt unit) (deployer : Deployer) : Deployer * error :=
  match c deployer with
  | (d, Next _) => (d, None)
  | (d, Return e) => (d, e)
  end.

(** The loop over the claims read as a function: the claims built before
    the first one the constructor rejects, and the error of that one. *)
Definition construct (createHub : BlackduckSpec) (claim : PVC)
    : string + PersistentVolumeClaim :=
  CreatePersistentVolumeClaim (Name claim) (Namespace createHub)
    (resolveSize claim) (resolveStorageClass (PVCStorageClass createHub) claim)
    ReadWriteOnce.

Fixpoint planClaims (createHub : BlackduckSpec) (claims : list PVC)
    : list PersistentVolumeClaim * error :=
  match claims with
  | [] => ([], None)
  | claim :: rest =>
    match construct createHub claim with
    | inl err => ([], Some (pvcError (Name claim) (Namespace createHub) err))
    | inr pvc => let '(built, e) := planClaims createHub rest in (pvc :: built, e)
    end
  end.

(** The objects [init] adds before it looks at the claims, lines 38-63. *)
Definition preamble (hc : Creater) (createHub : BlackduckSpec)
    (hubContainerFlavor : ContainerFlavor)
    (adminPassword userPassword : string) (isBinaryAnalysisEnabled : bool)
    : list Component :=
  ((if isNil (GetNamespace hc (Namespace createHub)) then []
    else [CNamespace (Namespace createHub)]) ++
   map CSecret (createHubSecrets hc createHub adminPassword userPassword) ++
   [CServiceAccount (Namespace createHub) (Namespace createHub);
    CClusterRoleBinding (Namespace createHub) (Namespace createHub)
      (Namespace createHub) "" "ClusterRole" "cluster-admin"] ++
   map CConfigMap
     (createHubConfig hc createHub hubContainerFlavor isBinaryAnalysisEnabled))%list.

(** What the claims contribute: nothing without persistent storage. *)
Definition planned (createHub : BlackduckSpec) : list PersistentVolumeClaim * error :=
  if PersistentStorage createHub
  then planClaims createHub (PVCs createHub) else ([], None).

(** The embedded database, lines 136-142. *)
Definition database (hc : Creater) (createHub : BlackduckSpec) (flavor : ContainerFlavor)
    (env : list EnvConfig) : list Component :=
  if isNil (ExternalPostgres createHub)
  then [CReplicationController (GetPostgresDeployment hc createHub flavor env);
        CService (GetPostgresService hc createHub flavor env)]
  else [].

(** Projections of a deployer by kind of object. *)
Definition pvcsOf (d : Deployer) : list PersistentVolumeClaim :=
  omap (fun c => match c with CPVC p => Some p | _ => None end) d.
Definition controllersOf (d : Deployer) : list ReplicationController :=
  omap (fun c => match c with CReplicationController r => Some r | _ => None end) d.
Definition servicesOf (d : Deployer) : list Service :=
  omap (fun c => match c with CService s => Some s | _ => None end) d.

End Composer.

End Blackduck.

(** ** Package synopsysctl, [pkg/synopsysctl/utils.go] *)

Module Synopsysctl.

Definition error : Type := option string.

(** The two run-time panics the helpers can raise. *)
Inductive panic : Type :=
| IndexOutOfRange
| NilPointerDereference.

(** A call either returns or panics. *)
Inductive outcome (A : Type) : Type :=
| Returned (a : A)
| Panicked (p : panic).
Arguments Returned {A} a.
Arguments Panicked {A} p.

(** [exec.Cmd], as [exec.Command] fills it: the program and the argument
    vector, whose first element is the program name. *)
Record Cmd : Type := mkCmd {
  Path : string;
  Args : list string
}.

Definition Command (name : string) (arg : list string) : Cmd :=
  {| Path := name; Args := name :: arg |}.

(** How a spawned command is fed: [CombinedOutput] without a pipe, with the
    payload written to its standard input, or [Run] on the terminal. *)
Inductive feed : Type :=
| Captured
| Piped (stdin : string)
| Interactive.

(** What the file reads from its surroundings: the package variables set
    by the flag parsing ([insecureSkipTLSVerify], [kubeConfigPath],
    [restconfig], [kubeClient]), the error of [exec.LookPath], [util.IsOpenshift], the
    results of running a command, and [json.Marshal]. None of their code is
    in this file. *)
Class Host : Type := {
  RestConfig : Type;
  Clientset : Type;
  Object : Type;
  insecureSkipTLSVerify : bool;
  kubeConfigPath : string;
  restconfig : RestConfig;
  kubeClient : Clientset;
  LookPath : string -> error;
  IsOpenshift : Clientset -> bool;
  StdinPipe : Cmd -> error;
  CombinedOutput : Cmd -> feed -> string * error;
  Run : Cmd -> error;
  Marshal : Object -> string + string
}.

Definition isNil {A} (p : option A) : bool :=
  match p with None => true | Some _ => false end.

Section Dispatch.
Context `{Host}.

(** [DetermineClusterClients], lines 142-180. *)
Definition DetermineClusterClients (restConfig : RestConfig)
    (kubeClient : Clientset) : bool * bool :=
  let kubectlPath := isNil (LookPath "kubectl") in
  let ocPath := isNil (LookPath "oc") in
  let openshiftTest := IsOpenshift kubeClient in
  if ocPath && openshiftTest then (false, true)
  else if kubectlPath && negb openshiftTest then (true, false)
  else if kubectlPath && negb ocPath && openshiftTest then (true, false)
  else if ocPath && negb kubectlPath && negb openshiftTest then (false, true)
  else (false, false).

(** Lines 188-197, shared word for word by [getKubeExecCmd] and
    [RunKubeEditorCmd]: the read of [args[0]], the [status] substitution
    and the two global flags. The [&&] of line 188 evaluates [args[0]]
    first, so an empty [args] panics whatever [openshift] is. *)
Definition globalFlags : list string :=
  ((if negb (kubeConfigPath =? "")
    then ["--kubeconfig=" +:+ kubeConfigPath] else []) ++
   (if insecureSkipTLSVerify
    then ["--insecure-skip-tls-verify=" +:+ "true"] else []))%list.

Definition prepareArgs (openshift : bool) (args : list string)
    : outcome (list string) :=
  match args !! 0 with
  | None => Panicked IndexOutOfRange
  | Some first =>
    let args :=
      if (first =? "cluster-info") && openshift
      then <[0 := "status"]> args else args in
    let args :=
      if insecureSkipTLSVerify
      then (["--insecure-skip-tls-verify=" +:+ "true"] ++ args)%list
      else args in
    let args :=
      if negb (kubeConfigPath =? "")
      then (["--kubeconfig=" +:+ kubeConfigPath] ++ args)%list
      else args in
    Returned args
  end.

Definition undetermined : string :=
  "couldn't determine if running in Openshift or Kubernetes".

(** [getKubeExecCmd], lines 182-205: the command pointer and the error it
    returns together. *)
Definition getKubeExecCmd (restconfig : RestConfig) (kubeClient : Clientset)
    (args : list string) : outcome (option Cmd * error) :=
  let '(kube, openshift) := DetermineClusterClients restconfig kubeClient in
  match prepareArgs openshift args with
  | Panicked p => Panicked p
  | Returned args =>
    if openshift then Returned (Some (Command "oc" args), None)
    else if kube then Returned (Some (Command "kubectl" args), None)
    else Returned (None, Some undetermined)
  end.

(** A call of a [Run...] helper: the commands it started, oldest first,
    and how the call ended. *)
Definition Call (A : Type) : Type := list (Cmd * feed) * outcome A.

(** [cmd2.CombinedOutput()] on a possibly nil [cmd2], followed by the
    two [return string(stdoutErr), ...] of lines 215-219 and 239-243. *)
Definition combinedOutput (cmd2 : option Cmd) (f : feed) : Call (string * error) :=
  match cmd2 with
  | None => ([], Panicked NilPointerDereference)
  | Some c => ([(c, f)], Returned (CombinedOutput c f))
  end.

(** [RunKubeCmd], lines 209-220. *)
Definition RunKubeCmd (restconfig : RestConfig) (kubeClient : Clientset)
    (args : list string) : Call (string * error) :=
  match getKubeExecCmd restconfig kubeClient args with
  | Panicked p => ([], Panicked p)
  | Returned (_, Some err) => ([], Returned ("", Some err))
  | Returned (cmd2, None) => combinedOutput cmd2 Captured
  end.

(** [RunKubeCmdWithStdin], lines 223-244. The goroutine writes [stdin]
    into the pipe and closes it; the command is recorded as fed with it. *)
Definition RunKubeCmdWithStdin (restconfig : RestConfig) (kubeClient : Clientset)
    (stdin : string) (args : list string) : Call (string * error) :=
  match getKubeExecCmd restconfig kubeClient args with
  | Panicked p => ([], Panicked p)
  | Returned (_, Some err) => ([], Returned ("", Some err))
  | Returned (None, None) => ([], Panicked NilPointerDereference)
  | Returned (Some c, None) =>
    match StdinPipe c with
    | Some err => ([], Returned ("", Some err))
    | None => combinedOutput (Some c) (Piped stdin)
    end
  end.

(** [RunKubeEditorCmd], lines 248-278. [cmd] is declared nil and assigned
    only in the two branches of lines 265-269; line 270 stores into it. The
    detector is called with the package variable [restconfig], not with the
    parameter [restConfig]. *)
Definition RunKubeEditorCmd (restConfig : RestConfig) (kubeClient : Clientset)
    (args : list string) : Call error :=
  let cmd : option Cmd := None in
  let '(kube, openshift) := DetermineClusterClients restconfig kubeClient in
  match prepareArgs openshift args with
  | Panicked p => ([], Panicked p)
  | Returned args =>
    let cmd :=
      if openshift then Some (Command "oc" args)
      else if kube then Some (Command "kubectl" args)
      else cmd in
    match cmd with
    | None => ([], Panicked NilPointerDereference)
    | Some c => ([(c, Interactive)], Returned (Run c))
    end
  end.

(** The loop of lines 283-290 and 301-308 over one enumeration of the
    map: [content] grows by the bytes of each object, and the first
    [json.Marshal] error leaves the function. *)
Fixpoint marshalLoop (objects : list (string * Object)) (content : string)
    : string + string :=
  match objects with
  | [] => inr content
  | (_, obj) :: rest =>
    match Marshal obj with
    | inl err => inl err
    | inr secretBytes => marshalLoop rest (content +:+ secretBytes)
    end
  end.

(** The rest of the two functions, after the loop. *)
Definition pipeObjects (failure : string) (kubeArgs : list string)
    (enumeration : list (string * Object)) : Call error :=
  match marshalLoop enumeration "" with
  | inl err => ([], Returned (Some err))
  | inr content =>
    match RunKubeCmdWithStdin restconfig kubeClient content kubeArgs with
    | (started, Panicked p) => (started, Panicked p)
    | (started, Returned (out, Some err)) =>
      (started, Returned (Some (failure +:+ out +:+ " : " +:+ err)))
    | (started, Returned (out, None)) => (started, Returned None)
    end
  end.

(** [KubectlApplyRuntimeObjects] and [KubectlDeleteRuntimeObjects] on one
    enumeration of [objects]. *)
Definition KubectlApplyRuntimeObjectsIn : list (string * Object) -> Call error :=
  pipeObjects "failed to deploy Runtime Object: "
              ["apply"; "--validate=false"; "-f"; "-"].

Definition KubectlDeleteRuntimeObjectsIn : list (string * Object) -> Call error :=
  pipeObjects "failed to delete Runtime Object: " ["delete"; "-f"; "-"].

(** [for _, obj := range objects] visits every entry of a Go map once, in
    an order the language leaves unspecified and the runtime varies from
    one loop to the next: every permutation of the entries is a possible
    enumeration. *)
Definition enumerates (objects : gmap string Object)
    (enumeration : list (string * Object)) : Prop :=
  enumeration ≡ₚ map_to_list objects.

Definition KubectlApplyRuntimeObjects (objects : gmap string Object)
    (result : Call error) : Prop :=
  ∃ enumeration, enumerates objects enumeration ∧
                 result = KubectlApplyRuntimeObjectsIn enumeration.

Definition KubectlDeleteRuntimeObjects (objects : gmap string Object)
    (result : Call error) : Prop :=
  ∃ enumeration, enumerates objects enumeration ∧
                 result = KubectlDeleteRuntimeObjectsIn enumeration.

(** The payload a call may pipe into the command: the content the loop
    leaves for some enumeration. *)
Definition payload (objects : gmap string Object) (content : string) : Prop :=
  ∃ enumeration, enumerates objects enumeration ∧
                 marshalLoop enumeration "" = inr content.

End Dispatch.

End Synopsysctl.

(** ** Concrete collaborators

    Instances of the two interfaces above, used to run the embedded code
    on explicit inputs. *)

Module Fixture.
Import Blackduck.

(** A persistent volume claim as data. *)
Record Claim : Type := mkClaim {
  claimName : string;
  claimNamespace : string;
  claimSize : string;
  claimClass : string;
  claimModes : list PVCAccessModeType
}.

Definition isDigit (c : Ascii.ascii) : bool :=
  let n := Ascii.nat_of_ascii c in (48 <=? n)%nat && (n <=? 57)%nat.

Fixpoint dropDigits (s : string) : string :=
  match s with
  | String c rest => if isDigit c then dropDigits rest else s
  | EmptyString => s
  end.

Definition suffixes : list string :=
  [""; "Ki"; "Mi"; "Gi"; "Ti"; "Pi"; "Ei"; "k"; "M"; "G"; "T"; "P"; "E"].

(** A quantity: at least one digit, then one of [suffixes]. *)
Definition wellFormedSize (s : string) : bool :=
  match s with
  | String c _ => isDigit c && bool_decide (dropDigits s ∈ suffixes)
  | EmptyString => false
  end.

(** Modelled from the spec: [util.CreatePersistentVolumeClaim] is not in
    the sources. The specification says of it only that it rejects a
    malformed size string and otherwise builds the claim from its
    arguments with the access mode it is given. *)
Definition createClaim (name namespace size class : string)
    (mode : PVCAccessModeType) : string + Claim :=
  if wellFormedSize size
  then inr (mkClaim name namespace size class [mode])
  else inl ("malformed size " +:+ size).

#[local] Instance api : Api := {|
  PostgresExternalDBConfig := string;
  ContainerFlavor := unit;
  EnvConfig := string
|}.

(** A cluster where no namespace exists yet, one secret and one config map
    per instance. *)
Definition collaborators : @Collaborators api := {|
  Creater := unit;
  Secret := string;
  ConfigMap := string;
  PersistentVolumeClaim := Claim;
  ReplicationController := string;
  Service := string;
  GetNamespace := fun _ ns => Some ("namespaces " +:+ ns +:+ " not found");
  createHubSecrets := fun _ _ _ _ => ["db-creds"];
  createHubConfig := fun _ _ _ _ => ["hub-config"];
  CreatePersistentVolumeClaim := createClaim;
  GetPostgresDeployment := fun _ _ _ _ => "postgres";
  GetPostgresService := fun _ _ _ _ => "postgres"
|}.

Definition instanceSpec (persistent : bool) (claims : list PVC)
    (external : option string) : @BlackduckSpec api :=
  mkSpec _ "hub" persistent "standard" claims external.

(** [init] on an empty deployer. *)
Definition compose (createHub : @BlackduckSpec api)
    : @Deployer api collaborators * error :=
  run (H0 := collaborators) (init (H0 := collaborators) tt createHub tt [] "admin" "user" false) [].

Import Synopsysctl.

(** A host given by what is on the path, what the cluster is and the two
    flags; objects are their own JSON text and every command succeeds
    silently. *)
Definition host (kubectl oc openshift insecure : bool) (kubeconfig : string)
    : Host := {|
  RestConfig := unit;
  Clientset := unit;
  Object := string;
  insecureSkipTLSVerify := insecure;
  kubeConfigPath := kubeconfig;
  restconfig := tt;
  kubeClient := tt;
  LookPath := fun name =>
    if (name =? "kubectl") && kubectl then None
    else if (name =? "oc") && oc then None
    else Some ("executable file not found in $PATH: " +:+ name);
  IsOpenshift := fun _ => openshift;
  StdinPipe := fun _ => None;
  CombinedOutput := fun _ _ => ("", None);
  Run := fun _ => None;
  Marshal := fun obj => inr obj
|}.

Definition twoObjects : gmap string string :=
  <["a" := "{1}"]> (<["b" := "{2}"]> ∅).

End Fixture.

(** ** Further views of a deployer *)

Module Views.
Import Blackduck.

Section WithCollaborators.
Context `{Collaborators}.

Definition namespacesOf (d : Deployer) : list string :=
  omap (fun c => match c with CNamespace n => Some n | _ => None end) d.
Definition secretsOf (d : Deployer) : list Secret :=
  omap (fun c => match c with CSecret s => Some s | _ => None end) d.
Definition configMapsOf (d : Deployer) : list ConfigMap :=
  omap (fun c => match c with CConfigMap m => Some m | _ => None end) d.
Definition serviceAccountsOf (d : Deployer) : list (string * string) :=
  omap (fun c => match c with
                 | CServiceAccount ns name => Some (ns, name)
                 | _ => None
                 end) d.
(** A binding by its service account, the kind of its role and the role. *)
Definition bindingsOf (d : Deployer) : list (string * string * string) :=
  omap (fun c => match c with
                 | CClusterRoleBinding _ _ account _ kind role =>
                   Some (account, kind, role)
                 | _ => None
                 end) d.

End WithCollaborators.

End Views.

(** ** Package synopsysctl: configuration helpers of [utils.go] *)

Module Settings.

(** The fields of a [pflag.Flag] the helpers read; [Value] is the text
    [Value.String()] answers. *)
Record Flag : Type := mkFlag {
  Changed : bool;
  Value : string
}.

(** What the helpers read from the process and from other packages: the
    environment, whether [os.Stat] reports a missing file,
    [filepath.Join], the kubeconfig loader of client-go, and the chart
    index with its lookup of package [util]. *)
Class System : Type := {
  RestConfig : Type;
  environ : gmap string string;
  StatNotExist : string -> bool;
  Join : list string -> string;
  ClientConfig : string -> bool -> string + RestConfig;
  IndexChartURLs : list string;
  GetLatestChartURLForAppVersion :
    list string -> string -> string -> string + string
}.

Section WithSystem.
Context `{System}.

(** [os.LookupEnv] and [os.Getenv]: an unset variable reads as empty. *)
Definition LookupEnv (name : string) : option string := environ !! name.
Definition Getenv (name : string) : string := default "" (environ !! name).

(** [setGlobalKubeConfigPath], lines 64-77, on the flag set of the
    command and the current [kubeConfigPath]: the new [kubeConfigPath] and
    the error. [Lookup] answers nil for a flag that is not registered, and
    reading [.Changed] of nil panics. *)
Definition setGlobalKubeConfigPath (flags : gmap string Flag)
    (kubeConfigPath : string)
    : Synopsysctl.outcome (string * Synopsysctl.error) :=
  match flags !! "kubeconfig" with
  | None => Synopsysctl.Panicked Synopsysctl.NilPointerDereference
  | Some flag =>
    let kubeConfigPath :=
      if negb (Changed flag)
      then match LookupEnv "KUBECONFIG" with
           | Some kubeconfigEnvVal => kubeconfigEnvVal
           | None => kubeConfigPath
           end
      else kubeConfigPath in
    if negb (kubeConfigPath =? "") && StatNotExist kubeConfigPath
    then Synopsysctl.Returned
           (kubeConfigPath,
            Some ("the kubeconfig path '" +:+ kubeConfigPath +:+
                  "' does not point to a file"))
    else Synopsysctl.Returned (kubeConfigPath, None)
  end.

(** [homeDir], lines 103-108. *)
Definition homeDir : string :=
  let h := Getenv "HOME" in
  if negb (h =? "") then h else Getenv "USERPROFILE".

(** [GetKubeClientFromOutsideCluster], lines 80-100: the path handed to
    the loader is kept beside the pair returned. *)
Definition kubeconfigLocation (kubeconfigpath : string) : string :=
  let home := homeDir in
  if (String.length kubeconfigpath =? 0)%nat && negb (home =? "")
  then Join [home; ".kube"; "config"] else kubeconfigpath.

Definition GetKubeClientFromOutsideCluster (kubeconfigpath : string)
    (insecureSkipTLSVerify : bool) : option RestConfig * Synopsysctl.error :=
  let kubeconfigpath := kubeconfigLocation kubeconfigpath in
  match ClientConfig kubeconfigpath insecureSkipTLSVerify with
  | inl err => (None, Some err)
  | inr kubeConfig => (Some kubeConfig, None)
  end.

(** [UpdateHelmChartLocation], lines 318-332, on the flag set and the
    current value of [*chartVariable]: its new value and the error. *)
Definition UpdateHelmChartLocation (flags : gmap string Flag)
    (chartName appVersion : string) (chartVariable : string)
    : Synopsysctl.outcome (string * Synopsysctl.error) :=
  match flags !! "app-resources-path" with
  | None => Synopsysctl.Panicked Synopsysctl.NilPointerDereference
  | Some chartLocationFlag =>
    if Changed chartLocationFlag
    then Synopsysctl.Returned (Value chartLocationFlag, None)
    else if bool_decide (0 < String.length appVersion)
    then match GetLatestChartURLForAppVersion IndexChartURLs chartName
                 appVersion with
         | inl err =>
           Synopsysctl.Returned
             (chartVariable,
              Some ("failed to get resources version for '" +:+ chartName +:+
                    "': " +:+ err))
         | inr chartURL => Synopsysctl.Returned (chartURL, None)
         end
    else Synopsysctl.Returned (chartVariable, None)
  end.

End WithSystem.

(** [s[n:]]. *)
Fixpoint dropString (n : nat) (s : string) : string :=
  match n, s with
  | 0, _ => s
  | S n', String _ rest => dropString n' rest
  | S _, EmptyString => EmptyString
  end.

(** [strings.Replace(s, old, new, 1)]: the leftmost instance of [old] in
    [s] is replaced by [new]; an [s] without one is returned as it is. *)
Fixpoint ReplaceFirst (s old new : string) {struct s} : string :=
  if String.prefix old s
  then new +:+ dropString (String.length old) s
  else match s with
       | EmptyString => EmptyString
       | String c rest => String c (ReplaceFirst rest old new)
       end.

(** [cleanAlertHelmError], lines 334-339. *)
Definition cleanAlertHelmError (errString releaseName alertName : string)
    : string :=
  let helmName := "release '" +:+ releaseName +:+ "'" in
  let instanceName := "instance '" +:+ alertName +:+ "'" in
  let cleanErrorMsg := ReplaceFirst errString helmName instanceName in
  cleanErrorMsg.

(** [old] occurs in [s] behind [before]. *)
Definition occursAfter (old s before : string) : Prop :=
  ∃ after, s = before +:+ old +:+ after.

(** A system given by its environment and the files that are missing. *)
Definition system (env : gmap string string) (missing : list string)
    : System := {|
  RestConfig := string;
  environ := env;
  StatNotExist := fun path => bool_decide (path ∈ missing);
  Join := fun parts => foldr (fun part rest =>
                                if rest =? "" then part
                                else part +:+ "/" +:+ rest) "" parts;
  ClientConfig := fun path _ =>
    if path =? "" then inl "invalid configuration: no configuration has been provided"
    else inr path;
  IndexChartURLs := [];
  GetLatestChartURLForAppVersion := fun _ chart version =>
    if version =? "0" then inl "no chart"
    else inr ("https://charts.example/" +:+ chart +:+ "-" +:+ version +:+ ".tgz")
|}.

End Settings.

(** ** The bytes of one entry *)

Module Chunks.
Import Synopsysctl.

(** What [json.Marshal] contributes for one entry of the map, if it
    succeeds. *)
Definition chunkOf `{Host} (entry : string * Object) : option string :=
  match Marshal entry.2 with
  | inr bytes => Some bytes
  | inl _ => None
  end.

End Chunks.

(** ** A host that cannot marshal every object *)

Module Samples.
Import Synopsysctl.

(** The host of [Fixture.host] with kubectl only, except that the object
    channel has no JSON form. *)
Definition strictHost : Host := {|
  RestConfig := unit;
  Clientset := unit;
  Object := string;
  insecureSkipTLSVerify := false;
  kubeConfigPath := "";
  restconfig := tt;
  kubeClient := tt;
  LookPath := @LookPath (Fixture.host true false false false "");
  IsOpenshift := fun _ => false;
  StdinPipe := fun _ => None;
  CombinedOutput := fun _ _ => ("", None);
  Run := fun _ => None;
  Marshal := fun obj =>
    if obj =? "channel" then inl "json: unsupported type: chan int"
    else inr obj
|}.

Definition mixedObjects : gmap string string :=
  <["a" := "{1}"]> (<["b" := "channel"]> ∅).

End Samples.

(** ** Sample flag sets and environments *)

Module Cases.
Import Settings.

Definition flagsWith (name : string) (changed : bool) (value : string)
    : gmap string Flag :=
  {[ name := mkFlag changed value ]}.

Definition envWith (name value : string) : gmap string string :=
  {[ name := value ]}.

End Cases.

(** * Properties *)

(** ** The size of a claim *)

Module PlannerTheory.
Import Blackduck.

Lemma overridden_empty dflt name class :
  overridden dflt (mkPVC name "" class) = dflt.
Proof. reflexivity. Qed.

Lemma nonempty_length (s : string) : s ≠ "" ↔ 0 < String.length s.
Proof.
  destruct s as [|c s]; simpl; split; intros Hs; try lia; try congruence.
Qed.

Lemma overridden_spec dflt claim :
  overridden dflt claim =
  if bool_decide (Size claim ≠ "") then Size claim else dflt.
Proof.
  unfold overridden.
  destruct (decide (Size claim ≠ "")) as [Hs|Hs].
  - rewrite (bool_decide_eq_true_2 _ Hs).
    apply nonempty_length in Hs. by rewrite (bool_decide_eq_true_2 _ Hs).
  - rewrite (bool_decide_eq_false_2 _ Hs).
    rewrite bool_decide_eq_false_2; [done|]. by rewrite <- nonempty_length.
Qed.

(** The switch is the precedence of the specification over the table of
    its case labels. *)
Lemma resolveSize_specResolve claim :
  resolveSize claim = specResolve defaultSizeFor claim.
Proof.
  unfold resolveSize, specResolve, defaultSizeFor, defaultSizes, assoc.
  repeat (destruct (Name claim =? _); [apply overridden_spec|]).
  by destruct (bool_decide _).
Qed.

Lemma assoc_Some name size table :
  assoc name table = Some size → (name, size) ∈ table.
Proof.
  induction table as [|[k v] rest IH]; simpl; [done|].
  destruct (String.eqb_spec name k) as [->|Hne].
  - intros [= ->]. apply list_elem_of_here.
  - intros Hrest. apply list_elem_of_further. auto.
Qed.

Lemma assoc_None name table :
  name ∉ table.*1 → assoc name table = None.
Proof.
  induction table as [|[k v] rest IH]; simpl; [done|].
  intros Hnot. apply not_elem_of_cons in Hnot as [Hne Hrest].
  destruct (String.eqb_spec name k) as [->|_]; [done|auto].
Qed.

Lemma assoc_NoDup name size table :
  NoDup table.*1 → (name, size) ∈ table → assoc name table = Some size.
Proof.
  induction table as [|[k v] rest IH]; simpl.
  - intros _ Hin. by apply elem_of_nil in Hin.
  - intros Hnd Hin. apply NoDup_cons in Hnd as [Hk Hnd].
    apply elem_of_cons in Hin as [[= -> ->]|Hin].
    + by rewrite String.eqb_refl.
    + destruct (String.eqb_spec name k) as [->|_]; [|auto].
      exfalso. apply Hk. apply list_elem_of_fmap. by exists (k, size).
Qed.

Example resolve_postgres :
  resolveSize (mkPVC "blackduck-postgres" "" "") = "150Gi".
Proof. reflexivity. Qed.

Example resolve_postgres_explicit :
  resolveSize (mkPVC "blackduck-postgres" "10Gi" "") = "10Gi".
Proof. reflexivity. Qed.

Example resolve_unprefixed :
  resolveSize (mkPVC "postgres" "" "") = "".
Proof. reflexivity. Qed.

Lemma defaultSizes_NoDup : NoDup defaultSizes.*1.
Proof. apply (bool_decide_unpack _). vm_compute. exact I. Qed.

(** C1, as the specification words it, fails: the table of the
    specification knows the name postgres, the switch does not, and a claim
    of that name without a size keeps its empty size instead of 150Gi. *)
Lemma C1_unprefixed_postgres_keeps_empty_size :
  specDefaultSizeFor "postgres" = Some "150Gi" ∧
  defaultSizeFor "postgres" = None ∧
  resolveSize (mkPVC "postgres" "" "standard") = "" ∧
  resolveSize (mkPVC "postgres" "" "standard") ≠ "150Gi".
Proof. repeat split; try reflexivity. discriminate. Qed.

(** C1, amended: the recognised names are the case labels of the switch,
    which all carry the prefix blackduck-. A claim without a size whose
    name is one of them gets exactly the size of the table below; the
    lookup finds exactly these entries; every other name is not found and
    a claim of such a name without a size keeps the empty size; a claim
    named blackduck-postgres without a size gets 150Gi. *)
Theorem C1_defaults_by_case_label :
  let table :=
    [ ("blackduck-postgres", "150Gi"); ("blackduck-authentication", "2Gi");
      ("blackduck-cfssl", "2Gi"); ("blackduck-registration", "2Gi");
      ("blackduck-solr", "2Gi"); ("blackduck-webapp", "2Gi");
      ("blackduck-logstash", "20Gi"); ("blackduck-zookeeper-data", "2Gi");
      ("blackduck-zookeeper-datalog", "2Gi") ] in
  (∀ claim size,
     Size claim = "" → (Name claim, size) ∈ table → resolveSize claim = size) ∧
  (∀ name size, defaultSizeFor name = Some size ↔ (name, size) ∈ table) ∧
  (∀ name class,
     name ∉ table.*1 →
     defaultSizeFor name = None ∧ resolveSize (mkPVC name "" class) = "") ∧
  (∀ class, resolveSize (mkPVC "blackduck-postgres" "" class) = "150Gi").
Proof.
  intros table. change table with defaultSizes. clear table.
  split; [|split; [|split]].
  - intros claim size Hsize Hin.
    rewrite resolveSize_specResolve. unfold specResolve, defaultSizeFor.
    rewrite (assoc_NoDup _ _ _ defaultSizes_NoDup Hin).
    rewrite bool_decide_eq_false_2; [done|]. intros Hne. by apply Hne.
  - intros name size. split.
    + apply assoc_Some.
    + apply assoc_NoDup, defaultSizes_NoDup.
  - intros name class Hnot.
    assert (defaultSizeFor name = None) as Hnone by by apply assoc_None.
    split; [done|].
    rewrite resolveSize_specResolve. unfold specResolve. simpl.
    by rewrite Hnone.
  - reflexivity.
Qed.

Lemma C1_defaults_by_case_label_witness :
  resolveSize (mkPVC "blackduck-logstash" "" "fast") = "20Gi" ∧
  defaultSizeFor "logstash" = None.
Proof.
  pose proof C1_defaults_by_case_label as (Hsized & _ & Hother & _).
  split.
  - apply (Hsized (mkPVC "blackduck-logstash" "" "fast") "20Gi").
    + reflexivity.
    + apply (bool_decide_unpack _). vm_compute. exact I.
  - apply (Hother "logstash" "fast").
    apply (bool_decide_unpack _). vm_compute. exact I.
Defined.

(** C2: the size of a claim is its own size when that is not empty,
    whatever the table holds and also for a recognised name; else the
    default of its name when the name is recognised; else its own, empty,
    size. A claim custom-claim without a size resolves to the empty
    size. *)
Theorem C2_size_precedence :
  (∀ claim,
     resolveSize claim =
     if bool_decide (Size claim ≠ "") then Size claim
     else match defaultSizeFor (Name claim) with
          | Some size => size
          | None => Size claim
          end) ∧
  (∀ claim, Size claim ≠ "" →
     resolveSize claim = Size claim ∧
     ∀ table, specResolve table claim = resolveSize claim) ∧
  (∀ class, resolveSize (mkPVC "custom-claim" "" class) = "").
Proof.
  split; [|split].
  - intros claim. apply resolveSize_specResolve.
  - intros claim Hne.
    assert (∀ table, specResolve table claim = Size claim) as Hany.
    { intros table. unfold specResolve. by rewrite (bool_decide_eq_true_2 _ Hne). }
    rewrite resolveSize_specResolve, Hany. split; [done|].
    intros table. apply Hany.
  - reflexivity.
Qed.

Lemma C2_size_precedence_witness :
  resolveSize (mkPVC "blackduck-postgres" "500Gi" "") = "500Gi" ∧
  specResolve (fun _ => Some "1Gi") (mkPVC "blackduck-postgres" "500Gi" "") =
  "500Gi".
Proof.
  pose proof C2_size_precedence as (_ & Hexplicit & _).
  destruct (Hexplicit (mkPVC "blackduck-postgres" "500Gi" "")) as [Hown Htable].
  - simpl. discriminate.
  - split; [exact Hown|]. rewrite Htable. exact Hown.
Defined.

End PlannerTheory.

(** ** The objects [init] queues *)

Module ComposerTheory.
Import Blackduck.

Section WithCollaborators.
Context `{Collaborators}.

Implicit Types (d : Deployer) (createHub : BlackduckSpec).

Lemma forRange_add {A} (f : A → Component) (xs : list A) d :
  forRange xs (λ x, add (f x)) d = (d ++ map f xs, Next tt).
Proof.
  revert d. induction xs as [|x xs IH]; intros d; simpl.
  - by rewrite app_nil_r.
  - unfold seq, add at 1. rewrite IH. by rewrite <- app_assoc.
Qed.

Lemma forRange_planClaim createHub claims d :
  forRange claims (planClaim createHub) d =
  (d ++ map CPVC (planClaims createHub claims).1,
   match (planClaims createHub claims).2 with
   | None => Next tt
   | Some e => Return (Some e)
   end).
Proof.
  revert d. induction claims as [|claim rest IH]; intros d; simpl.
  - by rewrite app_nil_r.
  - unfold seq, planClaim. fold (construct createHub claim).
    destruct (construct createHub claim) as [err|pvc]; simpl.
    + by rewrite app_nil_r.
    + unfold add. rewrite IH.
      destruct (planClaims createHub rest) as [built e]; simpl.
      by rewrite <- app_assoc.
Qed.

(** [init] in one equation: the preamble, then the claims built before a
    rejected one, then, unless a claim was rejected, the embedded
    database when no external one is configured. *)
Lemma init_run hc createHub flavor env admin user binary d :
  run (init hc createHub flavor env admin user binary) d =
  (d ++ preamble hc createHub flavor admin user binary ++
     map CPVC (planned createHub).1 ++
     (if isNil (planned createHub).2
      then database hc createHub flavor env else []),
   (planned createHub).2).
Proof.
  unfold run, init, seq, preamble, planned, database, when.
  destruct (isNil (GetNamespace hc (Namespace createHub))); simpl;
    rewrite ?forRange_add; unfold add; rewrite ?forRange_add;
    (destruct (PersistentStorage createHub); simpl;
     [ rewrite forRange_planClaim;
       destruct (planClaims createHub (PVCs createHub)) as [built [e|]]
     | ]; simpl;
     destruct (isNil (ExternalPostgres createHub)); simpl;
     unfold next, leave; simpl;
     f_equal; rewrite <- ?app_assoc; simpl; rewrite ?app_nil_r;
     rewrite <- ?app_assoc; reflexivity).
Qed.

Lemma pvcsOf_app d1 d2 : pvcsOf (d1 ++ d2) = pvcsOf d1 ++ pvcsOf d2.
Proof. apply omap_app. Qed.

Lemma controllersOf_app d1 d2 :
  controllersOf (d1 ++ d2) = controllersOf d1 ++ controllersOf d2.
Proof. apply omap_app. Qed.

Lemma servicesOf_app d1 d2 :
  servicesOf (d1 ++ d2) = servicesOf d1 ++ servicesOf d2.
Proof. apply omap_app. Qed.

Lemma pvcsOf_claims built : pvcsOf (map CPVC built) = built.
Proof. induction built as [|p built IH]; simpl; [done|]. by f_equal. Qed.

Lemma controllersOf_claims built : controllersOf (map CPVC built) = [].
Proof. by induction built. Qed.

Lemma servicesOf_claims built : servicesOf (map CPVC built) = [].
Proof. by induction built. Qed.

Lemma omap_map_None {A B C} (f : A → B) (g : B → option C) (xs : list A) :
  (∀ x, g (f x) = None) → omap g (map f xs) = [].
Proof.
  intros Hnone. induction xs as [|x xs IH]; simpl; [done|].
  by rewrite Hnone.
Qed.

(** The preamble holds no claim, controller or service. *)
Lemma preamble_projections hc createHub flavor admin user binary :
  let p := preamble hc createHub flavor admin user binary in
  pvcsOf p = [] ∧ controllersOf p = [] ∧ servicesOf p = [].
Proof.
  unfold preamble, pvcsOf, controllersOf, servicesOf.
  repeat split; rewrite !omap_app;
    rewrite !omap_map_None by done;
    by destruct (isNil (GetNamespace hc (Namespace createHub))).
Qed.

Lemma database_pvcsOf hc createHub flavor env :
  pvcsOf (database hc createHub flavor env) = [].
Proof. unfold database. by destruct (isNil _). Qed.

Lemma planClaims_length createHub claims built :
  planClaims createHub claims = (built, None) → length built = length claims.
Proof.
  revert built. induction claims as [|claim rest IH]; intros built; simpl.
  - by intros [= <-].
  - destruct (construct createHub claim) as [err|pvc]; [done|].
    destruct (planClaims createHub rest) as [built' e].
    intros [= <- ->]. simpl. f_equal. by apply IH.
Qed.

(** The claims before a rejected one are built, the rest is not looked
    at. *)
Lemma planClaims_rejected createHub before bad after built err :
  planClaims createHub before = (built, None) →
  construct createHub bad = inl err →
  planClaims createHub (before ++ bad :: after) =
  (built, Some (pvcError (Name bad) (Namespace createHub) err)).
Proof.
  revert built. induction before as [|claim rest IH]; intros built; simpl.
  - intros [= <-] ->. done.
  - destruct (construct createHub claim) as [e|pvc]; [done|].
    destruct (planClaims createHub rest) as [built' e] eqn:Hrest.
    intros [= <- ->] Hbad. by rewrite (IH built' eq_refl Hbad).
Qed.

(** C4, amended: when the constructor rejects a claim, [init] returns at
    once the error that names the claim and the namespace; the deployer
    then holds the preamble and the claims built before the rejected one,
    one for each of them; it holds nothing for the rejected claim, for the
    claims after it, or for the embedded database. *)
Theorem C4_rejected_claim_aborts hc createHub flavor env admin user binary d
    before bad after built err :
  PersistentStorage createHub = true →
  PVCs createHub = before ++ bad :: after →
  planClaims createHub before = (built, None) →
  construct createHub bad = inl err →
  run (init hc createHub flavor env admin user binary) d =
    (d ++ preamble hc createHub flavor admin user binary ++ map CPVC built,
     Some (pvcError (Name bad) (Namespace createHub) err)) ∧
  pvcsOf (run (init hc createHub flavor env admin user binary) d).1 =
    pvcsOf d ++ built ∧
  length built = length before.
Proof.
  intros Hpersistent Hclaims Hbefore Hbad.
  assert (planned createHub =
          (built, Some (pvcError (Name bad) (Namespace createHub) err))) as Hplan.
  { unfold planned. rewrite Hpersistent, Hclaims.
    by apply planClaims_rejected. }
  rewrite init_run, Hplan. simpl. rewrite app_nil_r.
  split; [done|]. split; [|by eapply planClaims_length].
  rewrite !pvcsOf_app, pvcsOf_claims.
  by destruct (preamble_projections hc createHub flavor admin user binary)
    as (-> & _ & _).
Qed.

(** The loop does not fail when the constructor accepts every claim. *)
Lemma planClaims_accepted createHub claims :
  (∀ claim, claim ∈ claims → ∃ pvc, construct createHub claim = inr pvc) →
  (planClaims createHub claims).2 = None.
Proof.
  induction claims as [|claim rest IH]; intros Hall; simpl; [done|].
  destruct (Hall claim) as [pvc ->]; [left|].
  destruct (planClaims createHub rest) as [built e] eqn:Hrest. simpl in *.
  apply IH. intros c Hin. apply Hall. by right.
Qed.

(** C7, amended: for a specification without external database whose
    claims do not stop [init] (persistent storage is off, or the
    constructor accepts every declared claim), [init] returns no error and
    has added exactly one controller, the embedded postgres one, and
    exactly one service, the one of that postgres; for a specification
    with an external database it adds neither, whatever it returns; and
    whenever it returns an error it has added neither. *)
Theorem C7_embedded_database_unless_aborted
    hc createHub flavor env admin user binary d :
  let r := run (init hc createHub flavor env admin user binary) d in
  (ExternalPostgres createHub = None →
   PersistentStorage createHub = false ∨
   (∀ claim, claim ∈ PVCs createHub →
             ∃ pvc, construct createHub claim = inr pvc) →
   r.2 = None ∧
   controllersOf r.1 =
     controllersOf d ++ [GetPostgresDeployment hc createHub flavor env] ∧
   servicesOf r.1 =
     servicesOf d ++ [GetPostgresService hc createHub flavor env]) ∧
  (ExternalPostgres createHub ≠ None →
   controllersOf r.1 = controllersOf d ∧ servicesOf r.1 = servicesOf d) ∧
  (r.2 ≠ None →
   controllersOf r.1 = controllersOf d ∧ servicesOf r.1 = servicesOf d).
Proof.
  intros r. subst r. rewrite init_run. simpl.
  destruct (preamble_projections hc createHub flavor admin user binary)
    as (_ & Hc & Hs).
  rewrite !controllersOf_app, !servicesOf_app, Hc, Hs,
    controllersOf_claims, servicesOf_claims. simpl.
  unfold database. split; [|split].
  - intros -> Hgoes.
    assert ((planned createHub).2 = None) as ->.
    { unfold planned. destruct Hgoes as [->|Haccepted]; [done|].
      destruct (PersistentStorage createHub); [|done].
      by apply planClaims_accepted. }
    done.
  - intros Hext. destruct (ExternalPostgres createHub); [|done]. simpl.
    destruct (isNil _); simpl; by rewrite !app_nil_r.
  - intros Herr. destruct ((planned createHub).2); [|done]. simpl.
    by rewrite !app_nil_r.
Qed.

(** C9: with persistent storage and the one claim blackduck-postgres
    without a size, the claim [init] queues is the one the constructor
    answers for the size 150Gi and the access mode read-write-once. *)
Theorem C9_postgres_claim hc createHub flavor env admin user binary d class :
  PersistentStorage createHub = true →
  PVCs createHub = [mkPVC "blackduck-postgres" "" class] →
  let r := run (init hc createHub flavor env admin user binary) d in
  resolveSize (mkPVC "blackduck-postgres" "" class) = "150Gi" ∧
  match CreatePersistentVolumeClaim "blackduck-postgres" (Namespace createHub)
          "150Gi"
          (resolveStorageClass (PVCStorageClass createHub)
             (mkPVC "blackduck-postgres" "" class))
          ReadWriteOnce with
  | inr pvc => pvcsOf r.1 = pvcsOf d ++ [pvc] ∧ r.2 = None
  | inl err =>
    pvcsOf r.1 = pvcsOf d ∧
    r.2 = Some (pvcError "blackduck-postgres" (Namespace createHub) err)
  end.
Proof.
  intros Hpersistent Hclaims r. subst r. split; [reflexivity|].
  rewrite init_run. unfold planned. rewrite Hpersistent, Hclaims. simpl.
  unfold construct. simpl.
  change (resolveSize (mkPVC "blackduck-postgres" "" class)) with "150Gi".
  destruct (preamble_projections hc createHub flavor admin user binary)
    as (Hp & _ & _).
  destruct (CreatePersistentVolumeClaim _ _ _ _ _) as [err|pvc]; simpl;
    rewrite !pvcsOf_app, Hp; simpl.
  - by rewrite app_nil_r.
  - by rewrite database_pvcsOf.
Qed.

End WithCollaborators.

Import Fixture.

(** C4, as the specification words it, fails: the second claim is rejected,
    [init] returns the error, and the claim built for the first one is in
    the deployer. *)
Lemma C4_earlier_claim_stays_queued :
  let r := compose (instanceSpec true
                      [mkPVC "blackduck-postgres" "" "";
                       mkPVC "blackduck-solr" "two gigs" ""] None) in
  r.2 = Some ("failed to create the postgres PVC blackduck-solr " +:+
              "in namespace hub because malformed size two gigs") ∧
  pvcsOf (H0 := collaborators) r.1 =
    [mkClaim "blackduck-postgres" "hub" "150Gi" "standard" [ReadWriteOnce]] ∧
  pvcsOf (H0 := collaborators) r.1 ≠ [].
Proof. split; [reflexivity|]. split; [reflexivity|discriminate]. Qed.

Lemma C4_rejected_claim_aborts_witness :
  (compose (instanceSpec true
              [mkPVC "blackduck-postgres" "" "";
               mkPVC "blackduck-solr" "two gigs" "";
               mkPVC "blackduck-webapp" "" ""] None)).2 =
  Some (pvcError "blackduck-solr" "hub" "malformed size two gigs").
Proof.
  unfold compose.
  pose proof (C4_rejected_claim_aborts (H0 := collaborators) tt
    (instanceSpec true
       [mkPVC "blackduck-postgres" "" "";
        mkPVC "blackduck-solr" "two gigs" "";
        mkPVC "blackduck-webapp" "" ""] None)
    tt [] "admin" "user" false []
    [mkPVC "blackduck-postgres" "" ""]
    (mkPVC "blackduck-solr" "two gigs" "")
    [mkPVC "blackduck-webapp" "" ""]
    [mkClaim "blackduck-postgres" "hub" "150Gi" "standard" [ReadWriteOnce]]
    "malformed size two gigs"
    eq_refl eq_refl eq_refl eq_refl) as (Hrun & _ & _).
  rewrite Hrun. reflexivity.
Defined.

(** C7, as the specification words it, fails: no external database is
    configured, the one declared claim is rejected, and [init] returns the
    error before it reaches the embedded database: no controller and no
    service is queued. *)
Lemma C7_rejected_claim_leaves_no_database :
  let createHub :=
    instanceSpec true [mkPVC "blackduck-solr" "two gigs" ""] None in
  ExternalPostgres createHub = None ∧
  (compose createHub).2 ≠ None ∧
  controllersOf (H0 := collaborators) (compose createHub).1 = [] ∧
  servicesOf (H0 := collaborators) (compose createHub).1 = [].
Proof. repeat split. discriminate. Qed.

Lemma C7_embedded_database_unless_aborted_witness :
  (compose (instanceSpec true [mkPVC "blackduck-solr" "5Gi" ""] None)).2 =
    None ∧
  controllersOf (H0 := collaborators)
    (compose (instanceSpec true [mkPVC "blackduck-solr" "5Gi" ""] None)).1 =
    ["postgres"] ∧
  servicesOf (H0 := collaborators)
    (compose (instanceSpec true [mkPVC "blackduck-solr" "5Gi" ""] None)).1 =
    ["postgres"] ∧
  controllersOf (H0 := collaborators)
    (compose (instanceSpec false [] (Some "db.example"))).1 = [] ∧
  servicesOf (H0 := collaborators)
    (compose (instanceSpec false [] (Some "db.example"))).1 = [] ∧
  controllersOf (H0 := collaborators)
    (compose (instanceSpec true [mkPVC "blackduck-solr" "two gigs" ""]
                None)).1 = [].
Proof.
  unfold compose.
  destruct (C7_embedded_database_unless_aborted (H0 := collaborators) tt
              (instanceSpec true [mkPVC "blackduck-solr" "5Gi" ""] None)
              tt [] "admin" "user" false [])
    as (Hembedded & _ & _).
  destruct (C7_embedded_database_unless_aborted (H0 := collaborators) tt
              (instanceSpec false [] (Some "db.example")) tt []
              "admin" "user" false [])
    as (_ & Hexternal & _).
  destruct (C7_embedded_database_unless_aborted (H0 := collaborators) tt
              (instanceSpec true [mkPVC "blackduck-solr" "two gigs" ""] None)
              tt [] "admin" "user" false [])
    as (_ & _ & Haborted).
  destruct Hembedded as (Hnil & Hc & Hs); [reflexivity| |].
  { right. intros claim Hin. apply list_elem_of_singleton in Hin as ->.
    eexists. reflexivity. }
  destruct Hexternal as [Hc' Hs']; [discriminate|].
  destruct Haborted as [Hc'' _]; [discriminate|].
  repeat split; assumption.
Defined.

Lemma C9_postgres_claim_witness :
  pvcsOf (H0 := collaborators)
    (compose (instanceSpec true [mkPVC "blackduck-postgres" "" ""] None)).1 =
  [mkClaim "blackduck-postgres" "hub" "150Gi" "standard" [ReadWriteOnce]].
Proof.
  unfold compose.
  destruct (C9_postgres_claim (H0 := collaborators) tt
              (instanceSpec true [mkPVC "blackduck-postgres" "" ""] None)
              tt [] "admin" "user" false [] "" eq_refl eq_refl)
    as [_ Hqueued].
  simpl in Hqueued. destruct Hqueued as [Hqueued _]. exact Hqueued.
Defined.

End ComposerTheory.

(** ** Detection and dispatch *)

Module DispatchTheory.
Import Synopsysctl.

Section WithHost.
Context `{Host}.

Implicit Types (rc : RestConfig) (kc : Clientset) (args : list string).

(** The detector does not look at the rest config. *)
Lemma DetermineClusterClients_restConfig rc rc' kc :
  DetermineClusterClients rc kc = DetermineClusterClients rc' kc.
Proof. reflexivity. Qed.

(** C3: whatever is on the path and whatever the cluster is, the detector
    never answers (true, true), and it answers (false, false) exactly when
    neither kubectl nor oc is found on the path. *)
Theorem C3_detector_exclusive rc kc :
  DetermineClusterClients rc kc ≠ (true, true) ∧
  (DetermineClusterClients rc kc = (false, false) ↔
   LookPath "kubectl" ≠ None ∧ LookPath "oc" ≠ None).
Proof.
  unfold DetermineClusterClients.
  destruct (LookPath "kubectl"), (LookPath "oc"), (IsOpenshift kc); simpl;
    (split; [discriminate|]); split;
    solve [ discriminate | reflexivity | intros [? ?]; congruence
          | split; discriminate ].
Qed.

(** The three answers the detector has. *)
Lemma DetermineClusterClients_cases rc kc :
  DetermineClusterClients rc kc = (false, true) ∨
  DetermineClusterClients rc kc = (true, false) ∨
  DetermineClusterClients rc kc = (false, false).
Proof.
  unfold DetermineClusterClients.
  destruct (isNil (LookPath "kubectl")), (isNil (LookPath "oc")),
    (IsOpenshift kc); simpl; auto.
Qed.

(** The prepared arguments: the global flags, then the caller's arguments
    with the head substituted when it is cluster-info on OpenShift. *)
Lemma prepareArgs_cons openshift first rest :
  prepareArgs openshift (first :: rest) =
  Returned (globalFlags ++
            (if (first =? "cluster-info") && openshift
             then "status" else first) :: rest).
Proof.
  unfold prepareArgs, globalFlags. simpl.
  destruct ((first =? "cluster-info") && openshift),
    insecureSkipTLSVerify, (negb (kubeConfigPath =? "")); reflexivity.
Qed.

Lemma prepareArgs_nil openshift : prepareArgs openshift [] = Panicked IndexOutOfRange.
Proof. reflexivity. Qed.

(** With neither client the two capturing helpers return the error and
    start nothing. *)
Lemma getKubeExecCmd_undetermined rc kc first rest :
  DetermineClusterClients rc kc = (false, false) →
  getKubeExecCmd rc kc (first :: rest) = Returned (None, Some undetermined).
Proof.
  intros Hnone. unfold getKubeExecCmd. rewrite Hnone.
  by rewrite prepareArgs_cons.
Qed.

Lemma RunKubeCmd_undetermined rc kc first rest :
  DetermineClusterClients rc kc = (false, false) →
  RunKubeCmd rc kc (first :: rest) = ([], Returned ("", Some undetermined)).
Proof.
  intros Hnone. unfold RunKubeCmd.
  by rewrite getKubeExecCmd_undetermined.
Qed.

Lemma RunKubeCmdWithStdin_undetermined rc kc stdin first rest :
  DetermineClusterClients rc kc = (false, false) →
  RunKubeCmdWithStdin rc kc stdin (first :: rest) =
  ([], Returned ("", Some undetermined)).
Proof.
  intros Hnone. unfold RunKubeCmdWithStdin.
  by rewrite getKubeExecCmd_undetermined.
Qed.

(** The editor variant has no such branch: its command stays nil and the
    store into it panics. *)
Lemma RunKubeEditorCmd_undetermined rc kc first rest :
  DetermineClusterClients restconfig kc = (false, false) →
  RunKubeEditorCmd rc kc (first :: rest) = ([], Panicked NilPointerDereference).
Proof.
  intros Hnone. unfold RunKubeEditorCmd. rewrite Hnone.
  by rewrite prepareArgs_cons.
Qed.

(** [getKubeExecCmd] on a non-empty argument list. *)
Lemma getKubeExecCmd_cons rc kc first rest :
  getKubeExecCmd rc kc (first :: rest) =
  let '(kube, openshift) := DetermineClusterClients rc kc in
  let prepared :=
    globalFlags ++
    (if (first =? "cluster-info") && openshift then "status" else first)
    :: rest in
  if openshift then Returned (Some (Command "oc" prepared), None)
  else if kube then Returned (Some (Command "kubectl" prepared), None)
  else Returned (None, Some undetermined).
Proof.
  unfold getKubeExecCmd.
  destruct (DetermineClusterClients rc kc) as [kube openshift].
  by rewrite prepareArgs_cons.
Qed.

(** C6: on OpenShift a first argument cluster-info is replaced by status
    in the command that is built and started; on OpenShift with another
    first argument, and on Kubernetes with any first argument, the
    caller's arguments follow the global flags unchanged. This holds for
    the command [getKubeExecCmd] builds and for what the captured-output,
    the stdin-piped and the interactive variant start; the stdin-piped
    variant starts it fed with its payload unless the pipe cannot be
    opened, in which case it starts nothing and returns that error. *)
Theorem C6_cluster_info_becomes_status rc kc stdin first rest :
  (DetermineClusterClients rc kc = (false, true) →
   let prepared :=
     globalFlags ++ (if first =? "cluster-info" then "status" else first)
     :: rest in
   getKubeExecCmd rc kc (first :: rest) =
     Returned (Some (Command "oc" prepared), None) ∧
   (RunKubeCmd rc kc (first :: rest)).1 = [(Command "oc" prepared, Captured)] ∧
   RunKubeCmdWithStdin rc kc stdin (first :: rest) =
     match StdinPipe (Command "oc" prepared) with
     | Some err => ([], Returned ("", Some err))
     | None =>
       ([(Command "oc" prepared, Piped stdin)],
        Returned (CombinedOutput (Command "oc" prepared) (Piped stdin)))
     end ∧
   (RunKubeEditorCmd rc kc (first :: rest)).1 =
     [(Command "oc" prepared, Interactive)]) ∧
  (DetermineClusterClients rc kc = (true, false) →
   let prepared := globalFlags ++ first :: rest in
   getKubeExecCmd rc kc (first :: rest) =
     Returned (Some (Command "kubectl" prepared), None) ∧
   (RunKubeCmd rc kc (first :: rest)).1 =
     [(Command "kubectl" prepared, Captured)] ∧
   RunKubeCmdWithStdin rc kc stdin (first :: rest) =
     match StdinPipe (Command "kubectl" prepared) with
     | Some err => ([], Returned ("", Some err))
     | None =>
       ([(Command "kubectl" prepared, Piped stdin)],
        Returned (CombinedOutput (Command "kubectl" prepared) (Piped stdin)))
     end ∧
   (RunKubeEditorCmd rc kc (first :: rest)).1 =
     [(Command "kubectl" prepared, Interactive)]).
Proof.
  split; intros Hkind prepared; subst prepared;
    unfold RunKubeCmd, RunKubeCmdWithStdin, RunKubeEditorCmd;
    rewrite getKubeExecCmd_cons,
      (DetermineClusterClients_restConfig restconfig rc kc), Hkind,
      prepareArgs_cons; simpl;
    rewrite ?andb_true_r, ?andb_false_r;
    (repeat split; try done); by destruct (StdinPipe _).
Qed.

(** C10: every dispatch operation reads [args[0]]: on an empty argument
    list each of them panics with an index out of range, whatever the host
    is and before any command is started; on a non-empty list the read is
    in bounds and none of them panics that way. *)
Theorem C10_first_argument_is_read rc kc stdin :
  (getKubeExecCmd rc kc [] = Panicked IndexOutOfRange ∧
   RunKubeCmd rc kc [] = ([], Panicked IndexOutOfRange) ∧
   RunKubeCmdWithStdin rc kc stdin [] = ([], Panicked IndexOutOfRange) ∧
   RunKubeEditorCmd rc kc [] = ([], Panicked IndexOutOfRange)) ∧
  (∀ args, args ≠ [] →
   is_Some (args !! 0) ∧
   getKubeExecCmd rc kc args ≠ Panicked IndexOutOfRange ∧
   (RunKubeCmd rc kc args).2 ≠ Panicked IndexOutOfRange ∧
   (RunKubeCmdWithStdin rc kc stdin args).2 ≠ Panicked IndexOutOfRange ∧
   (RunKubeEditorCmd rc kc args).2 ≠ Panicked IndexOutOfRange).
Proof.
  split.
  - unfold RunKubeCmd, RunKubeCmdWithStdin, RunKubeEditorCmd, getKubeExecCmd.
    destruct (DetermineClusterClients rc kc) as [kube openshift].
    destruct (DetermineClusterClients restconfig kc) as [kube' openshift'].
    by rewrite !prepareArgs_nil.
  - intros [|first rest] Hne; [done|]. split; [by eexists|].
    unfold RunKubeCmd, RunKubeCmdWithStdin, RunKubeEditorCmd.
    rewrite getKubeExecCmd_cons.
    rewrite (DetermineClusterClients_restConfig restconfig rc kc).
    destruct (DetermineClusterClients rc kc) as [[] []];
      rewrite prepareArgs_cons; simpl;
      repeat split; try discriminate;
      destruct (StdinPipe _); discriminate.
Qed.

Lemma append_cons c (s t : string) : String c s +:+ t = String c (s +:+ t).
Proof. reflexivity. Qed.

Lemma append_assoc (s1 s2 s3 : string) : (s1 +:+ s2) +:+ s3 = s1 +:+ s2 +:+ s3.
Proof.
  induction s1 as [|c s1 IH]; [done|]. by rewrite !append_cons, IH.
Qed.

Lemma append_empty_r (s : string) : s +:+ "" = s.
Proof. induction s as [|c s IH]; [done|]. by rewrite append_cons, IH. Qed.

(** The loop succeeds exactly when every object marshals, and then leaves
    the bytes of the objects one after the other behind what [content]
    already held. *)
Lemma marshalLoop_inr objects content result :
  marshalLoop objects content = inr result ↔
  ∃ chunks,
    Forall2 (λ entry chunk, Marshal entry.2 = inr chunk) objects chunks ∧
    result = content +:+ foldr String.append "" chunks.
Proof.
  revert content. induction objects as [|[key obj] rest IH]; intros content; simpl.
  - split.
    + intros [= <-]. exists []. split; [constructor|].
      simpl. by rewrite append_empty_r.
    + intros (chunks & Hall & ->). inversion Hall; subst. simpl.
      by rewrite append_empty_r.
  - destruct (Marshal obj) as [err|bytes] eqn:Hobj.
    + split; [done|]. intros (chunks & Hall & _).
      inversion Hall as [|? chunk ? ? Hhead]; subst. simpl in Hhead. congruence.
    + rewrite IH. split.
      * intros (chunks & Hall & ->). exists (bytes :: chunks).
        split; [by constructor|]. simpl. by rewrite append_assoc.
      * intros (chunks & Hall & ->).
        inversion Hall as [|? chunk ? chunks' Hhead Htail]; subst.
        simpl in Hhead. rewrite Hobj in Hhead. injection Hhead as <-.
        exists chunks'. split; [done|]. simpl. by rewrite append_assoc.
Qed.

(** C8, amended: the payload is the raw concatenation, without separator
    or envelope, of the separately marshalled bytes of every object of the
    map, each taken once, in the order in which the loop enumerates the
    map; that order is any order of the entries, so the payload is
    determined by the map only up to the order of its chunks. *)
Theorem C8_payload_concatenates_an_enumeration
    (objects : gmap string Object) (content : string) :
  payload objects content ↔
  ∃ enumeration chunks,
    enumeration ≡ₚ map_to_list objects ∧
    Forall2 (λ entry chunk, Marshal entry.2 = inr chunk) enumeration chunks ∧
    content = foldr String.append "" chunks.
Proof.
  unfold payload, enumerates. split.
  - intros (enumeration & Hperm & Hloop).
    apply marshalLoop_inr in Hloop as (chunks & Hall & ->).
    by exists enumeration, chunks.
  - intros (enumeration & chunks & Hperm & Hall & ->).
    exists enumeration. split; [done|].
    apply marshalLoop_inr. by exists chunks.
Qed.

(** What the two functions pipe: a marshalling error is returned before
    any command is started, and a command that is started is fed the
    content of the loop. *)
Lemma pipeObjects_feed failure kubeArgs enumeration :
  match marshalLoop enumeration "" with
  | inl err =>
    pipeObjects failure kubeArgs enumeration = ([], Returned (Some err))
  | inr content =>
    ∀ c f, (c, f) ∈ (pipeObjects failure kubeArgs enumeration).1 →
           f = Piped content
  end.
Proof.
  unfold pipeObjects.
  destruct (marshalLoop enumeration "") as [err|content]; [done|].
  unfold RunKubeCmdWithStdin, combinedOutput.
  destruct (getKubeExecCmd restconfig kubeClient kubeArgs)
    as [[[c|] [err|]]|p]; simpl; intros c' f Hin;
    try (by apply elem_of_nil in Hin).
  destruct (StdinPipe c); simpl in Hin; [by apply elem_of_nil in Hin|].
  destruct (CombinedOutput c (Piped content)) as [out [err|]]; simpl in Hin;
    apply list_elem_of_singleton in Hin; congruence.
Qed.

End WithHost.

Import Fixture.

(** C5 fails in the editor variant: with neither client on the path
    [RunKubeEditorCmd] panics on its nil command, where [RunKubeCmd] and
    [RunKubeCmdWithStdin] return the error. *)
Theorem C5_editor_panics_without_client :
  let H := host false false false false "" in
  RunKubeEditorCmd tt tt ["edit"; "blackduck"] =
    ([], Panicked NilPointerDereference) ∧
  RunKubeCmd tt tt ["edit"; "blackduck"] =
    ([], Returned ("", Some undetermined)) ∧
  RunKubeCmdWithStdin tt tt "{}" ["apply"; "-f"; "-"] =
    ([], Returned ("", Some undetermined)).
Proof. repeat split. Qed.

Lemma C6_cluster_info_becomes_status_witness :
  let H := host true true true false "" in
  getKubeExecCmd tt tt ["cluster-info"] =
    Returned (Some (mkCmd "oc" ["oc"; "status"]), None) ∧
  RunKubeCmdWithStdin tt tt "{}" ["cluster-info"] =
    ([(mkCmd "oc" ["oc"; "status"], Piped "{}")], Returned ("", None)) ∧
  (RunKubeEditorCmd tt tt ["cluster-info"]).1 =
    [(mkCmd "oc" ["oc"; "status"], Interactive)].
Proof.
  intros H.
  destruct (C6_cluster_info_becomes_status (H := H) tt tt "{}"
              "cluster-info" [])
    as [Hopenshift _].
  destruct (Hopenshift eq_refl) as (Hcmd & _ & Hpiped & Hedit).
  split; [exact Hcmd|]. split; [exact Hpiped|exact Hedit].
Defined.

Lemma C10_first_argument_is_read_witness :
  let H := host true false false false "" in
  getKubeExecCmd tt tt ["get"; "pods"] ≠ Panicked IndexOutOfRange ∧
  getKubeExecCmd tt tt [] = Panicked IndexOutOfRange.
Proof.
  intros H.
  destruct (C10_first_argument_is_read (H := H) tt tt "") as [Hempty Hfull].
  destruct (Hfull ["get"; "pods"]) as (_ & Hcmd & _); [discriminate|].
  destruct Hempty as (Hpanic & _).
  split; [exact Hcmd|exact Hpanic].
Defined.

(** C8, as the specification words it, fails: the same map of two objects
    has two payloads, one for each order in which the loop may visit its
    entries, so the payload is not a function of the set. *)
Lemma C8_payload_not_determined_by_the_set :
  let H := host true false false false "" in
  payload twoObjects "{1}{2}" ∧
  payload twoObjects "{2}{1}" ∧
  ¬ (∀ p q, payload twoObjects p → payload twoObjects q → p = q).
Proof.
  intros H.
  assert (payload twoObjects "{1}{2}") as H12.
  { exists [("a", "{1}"); ("b", "{2}")]. split; [|reflexivity].
    unfold enumerates. vm_compute. reflexivity. }
  assert (payload twoObjects "{2}{1}") as H21.
  { exists [("b", "{2}"); ("a", "{1}")]. split; [|reflexivity].
    unfold enumerates. vm_compute. apply perm_swap. }
  split; [exact H12|]. split; [exact H21|].
  intros Hfun. specialize (Hfun _ _ H12 H21). discriminate.
Qed.

End DispatchTheory.

(** ** More on the size of a claim and on [init] *)

Module ComposerLaws.
Import Blackduck Views.

Lemma defaultSizeFor_nonempty name size :
  defaultSizeFor name = Some size → size ≠ "".
Proof.
  intros Hfound. apply PlannerTheory.assoc_Some in Hfound.
  assert (Forall (λ entry, entry.2 ≠ "") defaultSizes) as Hall
    by (repeat constructor; discriminate).
  rewrite Forall_forall in Hall. exact (Hall _ Hfound).
Qed.

(** X1: a claim is left with an empty size exactly when it declares none
    and its name is not one of the case labels. *)
Theorem resolveSize_empty_iff claim :
  resolveSize claim = "" ↔ Size claim = "" ∧ defaultSizeFor (Name claim) = None.
Proof.
  rewrite PlannerTheory.resolveSize_specResolve. unfold specResolve.
  case_bool_decide as Hsize.
  - split; [done|]. by intros [? _].
  - destruct (defaultSizeFor (Name claim)) as [size|] eqn:Hfound.
    + apply defaultSizeFor_nonempty in Hfound. split; [done|]. by intros [_ ?].
    + done.
Qed.

(** X2: resolving is stable: a claim that declares the size resolved for
    it resolves to that same size. *)
Theorem resolveSize_stable claim :
  resolveSize (mkPVC (Name claim) (resolveSize claim) (StorageClass claim)) =
  resolveSize claim.
Proof.
  rewrite !PlannerTheory.resolveSize_specResolve.
  destruct claim as [name size class]. unfold specResolve. simpl.
  destruct (decide (size ≠ "")) as [Hsize|Hsize].
  - by rewrite !(bool_decide_eq_true_2 _ Hsize).
  - rewrite !(bool_decide_eq_false_2 _ Hsize).
    destruct (defaultSizeFor name) as [dflt|] eqn:Hfound.
    + apply defaultSizeFor_nonempty in Hfound.
      by rewrite (bool_decide_eq_true_2 _ Hfound).
    + by destruct (bool_decide _).
Qed.

Section WithCollaborators.
Context `{Collaborators}.

Implicit Types (d : Deployer) (createHub : BlackduckSpec).

(** The loop fails exactly when the constructor rejects one of the
    claims. *)
Lemma planClaims_error_iff createHub claims :
  (planClaims createHub claims).2 ≠ None ↔
  ∃ claim err, claim ∈ claims ∧ construct createHub claim = inl err.
Proof.
  induction claims as [|claim rest IH]; simpl.
  - split; [done|]. intros (claim & err & Hin & _). by apply elem_of_nil in Hin.
  - destruct (construct createHub claim) as [err|pvc] eqn:Hclaim; simpl.
    + split; [|done]. intros _. exists claim, err. split; [left|done].
    + destruct (planClaims createHub rest) as [built e]. simpl in *.
      rewrite IH. split.
      * intros (c & err & Hin & Hc). exists c, err. split; [by right|done].
      * intros (c & err & Hin & Hc). apply elem_of_cons in Hin as [->|Hin].
        -- congruence.
        -- by exists c, err.
Qed.

(** A loop that does not fail has built every claim, in order. *)
Lemma planClaims_built createHub claims built :
  planClaims createHub claims = (built, None) →
  Forall2 (λ claim pvc, construct createHub claim = inr pvc) claims built.
Proof.
  revert built. induction claims as [|claim rest IH]; intros built; simpl.
  - intros [= <-]. constructor.
  - destruct (construct createHub claim) as [err|pvc] eqn:Hclaim; [done|].
    destruct (planClaims createHub rest) as [built' e].
    intros [= <- ->]. constructor; [done|]. by apply IH.
Qed.

Lemma preamble_pvcsOf hc createHub flavor admin user binary :
  pvcsOf (preamble hc createHub flavor admin user binary) = [].
Proof.
  by destruct (ComposerTheory.preamble_projections hc createHub flavor admin
                 user binary) as (? & _ & _).
Qed.

(** X3: without persistent storage [init] adds no claim and returns no
    error, whatever claims are declared and whatever the constructor would
    say of them. *)
Theorem init_without_persistence hc createHub flavor env admin user binary d :
  PersistentStorage createHub = false →
  (run (init hc createHub flavor env admin user binary) d).2 = None ∧
  pvcsOf (run (init hc createHub flavor env admin user binary) d).1 = pvcsOf d.
Proof.
  intros Hoff. rewrite ComposerTheory.init_run. unfold planned.
  rewrite Hoff. simpl. split; [done|].
  rewrite !ComposerTheory.pvcsOf_app, preamble_pvcsOf,
    ComposerTheory.database_pvcsOf. simpl. by rewrite app_nil_r.
Qed.

(** X4: [init] returns an error exactly when persistent storage is on
    and the constructor rejects one of the declared claims; nothing else
    in it fails. *)
Theorem init_error_iff hc createHub flavor env admin user binary d :
  (run (init hc createHub flavor env admin user binary) d).2 ≠ None ↔
  PersistentStorage createHub = true ∧
  ∃ claim err, claim ∈ PVCs createHub ∧ construct createHub claim = inl err.
Proof.
  rewrite ComposerTheory.init_run. unfold planned. simpl.
  destruct (PersistentStorage createHub); simpl.
  - rewrite planClaims_error_iff. split; [by split|by intros [_ ?]].
  - split; [done|]. by intros [? _].
Qed.

(** X5: when [init] returns without error under persistent storage, the
    claims it added are, one for one and in the order declared, the
    answers of the constructor. *)
Theorem init_claims_in_order hc createHub flavor env admin user binary d :
  PersistentStorage createHub = true →
  (run (init hc createHub flavor env admin user binary) d).2 = None →
  ∃ built,
    pvcsOf (run (init hc createHub flavor env admin user binary) d).1 =
      pvcsOf d ++ built ∧
    Forall2 (λ claim pvc, construct createHub claim = inr pvc)
            (PVCs createHub) built.
Proof.
  intros Hon. rewrite ComposerTheory.init_run. unfold planned.
  rewrite Hon. simpl.
  destruct (planClaims createHub (PVCs createHub)) as [built e] eqn:Hplan.
  simpl. intros ->. simpl. exists built. split.
  - rewrite !ComposerTheory.pvcsOf_app, preamble_pvcsOf,
      ComposerTheory.pvcsOf_claims, ComposerTheory.database_pvcsOf.
    simpl. by rewrite app_nil_r.
  - by apply planClaims_built.
Qed.

Lemma omap_map_Some {A B} (f : A → B) (g : B → option A) (xs : list A) :
  (∀ x, g (f x) = Some x) → omap g (map f xs) = xs.
Proof.
  intros Hsome. induction xs as [|x xs IH]; simpl; [done|].
  rewrite Hsome. by f_equal.
Qed.

Lemma omap_CPVC_None {B} (g : Component → option B) built :
  (∀ p, g (CPVC p) = None) → omap g (map CPVC built) = [].
Proof. apply ComposerTheory.omap_map_None. Qed.

(** X7: on every run, failed or not, [init] queues the secrets and the
    config maps of the builders in their order, one service account named
    after the namespace, one binding of that account to the cluster role
    cluster-admin, and the namespace itself exactly when the probe
    failed. *)
Theorem init_preamble_always hc createHub flavor env admin user binary d :
  let r := run (init hc createHub flavor env admin user binary) d in
  let ns := Namespace createHub in
  namespacesOf r.1 =
    namespacesOf d ++ (if isNil (GetNamespace hc ns) then [] else [ns]) ∧
  secretsOf r.1 = secretsOf d ++ createHubSecrets hc createHub admin user ∧
  serviceAccountsOf r.1 = serviceAccountsOf d ++ [(ns, ns)] ∧
  bindingsOf r.1 = bindingsOf d ++ [(ns, "ClusterRole", "cluster-admin")] ∧
  configMapsOf r.1 =
    configMapsOf d ++ createHubConfig hc createHub flavor binary.
Proof.
  intros r ns. subst r ns. rewrite ComposerTheory.init_run. simpl.
  unfold namespacesOf, secretsOf, serviceAccountsOf, bindingsOf, configMapsOf,
    preamble, database.
  repeat split; rewrite !omap_app; rewrite ?omap_CPVC_None by done;
    rewrite ?(ComposerTheory.omap_map_None CSecret) by done;
    rewrite ?(ComposerTheory.omap_map_None CConfigMap) by done;
    rewrite ?(omap_map_Some CSecret) by done;
    rewrite ?(omap_map_Some CConfigMap) by done;
    destruct (isNil (GetNamespace hc (Namespace createHub)));
    destruct (isNil (planned createHub).2);
    destruct (isNil (ExternalPostgres createHub)); simpl;
    rewrite ?app_nil_r; try done.
Qed.

End WithCollaborators.

Import Fixture.

Lemma init_without_persistence_witness :
  let createHub :=
    instanceSpec false [mkPVC "blackduck-solr" "two gigs" ""] None in
  (compose createHub).2 = None ∧
  pvcsOf (H0 := collaborators) (compose createHub).1 = [].
Proof.
  intros createHub. unfold compose.
  exact (init_without_persistence (H0 := collaborators) tt createHub tt []
           "admin" "user" false [] eq_refl).
Defined.

Lemma init_claims_in_order_witness :
  let createHub :=
    instanceSpec true
      [mkPVC "blackduck-postgres" "" ""; mkPVC "blackduck-solr" "5Gi" "fast"]
      None in
  ∃ built,
    pvcsOf (H0 := collaborators) (compose createHub).1 = built ∧
    Forall2 (λ claim pvc, construct (H0 := collaborators) createHub claim =
                          inr pvc)
            (PVCs createHub) built.
Proof.
  intros createHub. unfold compose.
  destruct (init_claims_in_order (H0 := collaborators) tt createHub tt []
              "admin" "user" false [] eq_refl eq_refl)
    as (built & Hadded & Hbuilt).
  exists built. split; [exact Hadded|exact Hbuilt].
Defined.

End ComposerLaws.

(** ** More on detection, dispatch and the piping of objects *)

Module DispatchLaws.
Import Synopsysctl Chunks.

Section WithHost.
Context `{Host}.

Implicit Types (rc : RestConfig) (kc : Clientset) (args : list string).

(** X8: the detector only ever selects a client that is on the path. *)
Theorem detector_selects_installed_client rc kc :
  ((DetermineClusterClients rc kc).1 = true → LookPath "kubectl" = None) ∧
  ((DetermineClusterClients rc kc).2 = true → LookPath "oc" = None).
Proof.
  unfold DetermineClusterClients.
  destruct (LookPath "kubectl"), (LookPath "oc"), (IsOpenshift kc); simpl;
    split; intros; congruence.
Qed.

(** X9: with both clients on the path the answer follows the cluster:
    oc on OpenShift, kubectl otherwise. *)
Theorem detector_follows_cluster rc kc :
  LookPath "kubectl" = None → LookPath "oc" = None →
  DetermineClusterClients rc kc = (negb (IsOpenshift kc), IsOpenshift kc).
Proof.
  intros Hkubectl Hoc. unfold DetermineClusterClients.
  rewrite Hkubectl, Hoc. by destruct (IsOpenshift kc).
Qed.

(** X10: with one client only on the path that client is selected,
    whatever the cluster is. *)
Theorem detector_falls_back rc kc :
  (LookPath "kubectl" = None → LookPath "oc" ≠ None →
   DetermineClusterClients rc kc = (true, false)) ∧
  (LookPath "oc" = None → LookPath "kubectl" ≠ None →
   DetermineClusterClients rc kc = (false, true)).
Proof.
  unfold DetermineClusterClients.
  destruct (LookPath "kubectl"), (LookPath "oc"), (IsOpenshift kc); simpl;
    split; intros; congruence.
Qed.

(** X11: [getKubeExecCmd] returns a command exactly when it returns no
    error, so a caller that has checked the error holds a command. *)
Theorem getKubeExecCmd_command_xor_error rc kc args cmd err :
  getKubeExecCmd rc kc args = Returned (cmd, err) →
  isNil cmd = negb (isNil err) ∧ (cmd = None → err = Some undetermined).
Proof.
  destruct args as [|first rest].
  - unfold getKubeExecCmd.
    destruct (DetermineClusterClients rc kc) as [kube openshift]. done.
  - rewrite DispatchTheory.getKubeExecCmd_cons.
    destruct (DetermineClusterClients rc kc) as [[] []]; simpl;
      intros [= <- <-]; done.
Qed.

(** X12: the command [getKubeExecCmd] builds runs a client that is on the
    path, oc or kubectl, and its argument vector is the client's name, the
    global flags, kubeconfig before TLS, and the caller's arguments, of
    which at most the first is changed. *)
Theorem getKubeExecCmd_command_shape rc kc args cmd err :
  getKubeExecCmd rc kc args = Returned (Some cmd, err) →
  (Path cmd = "oc" ∨ Path cmd = "kubectl") ∧
  LookPath (Path cmd) = None ∧
  ∃ first, Args cmd = Path cmd :: globalFlags ++ first :: tail args ∧
           length (Args cmd) = S (length globalFlags + length args).
Proof.
  destruct args as [|first rest].
  - unfold getKubeExecCmd.
    destruct (DetermineClusterClients rc kc) as [kube openshift]. done.
  - rewrite DispatchTheory.getKubeExecCmd_cons.
    pose proof (detector_selects_installed_client rc kc) as [Hkube Hoc].
    destruct (DetermineClusterClients rc kc) as [[] []]; simpl in *;
      intros [= <- <-]; simpl;
      (split; [auto|]); (split; [auto|]);
      eexists; (split; [reflexivity|]);
      rewrite length_app; simpl; lia.
Qed.

(** X13: the two capturing helpers never panic on a non-empty argument
    list, and start at most one command. *)
Theorem capturing_helpers_do_not_panic rc kc stdin args :
  args ≠ [] →
  (∃ r, (RunKubeCmd rc kc args).2 = Returned r) ∧
  (∃ r, (RunKubeCmdWithStdin rc kc stdin args).2 = Returned r) ∧
  (length (RunKubeCmd rc kc args).1 ≤ 1)%nat ∧
  (length (RunKubeCmdWithStdin rc kc stdin args).1 ≤ 1)%nat.
Proof.
  destruct args as [|first rest]; [done|]. intros _.
  unfold RunKubeCmd, RunKubeCmdWithStdin.
  rewrite DispatchTheory.getKubeExecCmd_cons.
  destruct (DetermineClusterClients rc kc) as [[] []]; simpl;
    repeat split; try (eexists; reflexivity); try lia;
    destruct (StdinPipe _); simpl; try (eexists; reflexivity); lia.
Qed.

(** X14: whenever [getKubeExecCmd] builds a command, [RunKubeEditorCmd]
    runs that very command on the terminal and returns what it returns:
    the two copies of the dispatch code differ only when no client is
    determined. *)
Theorem editor_runs_the_same_command rc kc args cmd :
  getKubeExecCmd restconfig kc args = Returned (Some cmd, None) →
  RunKubeEditorCmd rc kc args = ([(cmd, Interactive)], Returned (Run cmd)).
Proof.
  destruct args as [|first rest].
  - unfold getKubeExecCmd.
    destruct (DetermineClusterClients restconfig kc) as [kube openshift]. done.
  - rewrite DispatchTheory.getKubeExecCmd_cons. unfold RunKubeEditorCmd.
    destruct (DetermineClusterClients restconfig kc) as [[] []];
      rewrite DispatchTheory.prepareArgs_cons; simpl;
      intros [= <-]; done.
Qed.

Lemma chunks_omap enumeration chunks :
  Forall2 (λ entry chunk, Marshal entry.2 = inr chunk) enumeration chunks →
  chunks = omap chunkOf enumeration.
Proof.
  induction 1 as [|entry chunk enumeration chunks Hhead _ IH]; simpl; [done|].
  unfold chunkOf at 1. rewrite Hhead. by f_equal.
Qed.

(** The loop succeeds exactly when every object marshals. *)
Lemma marshalLoop_succeeds enumeration content :
  (∃ result, marshalLoop enumeration content = inr result) ↔
  Forall (λ entry, ∃ bytes, Marshal entry.2 = inr bytes) enumeration.
Proof.
  revert content.
  induction enumeration as [|[key obj] rest IH]; intros content; simpl.
  - split; [constructor|by eexists].
  - destruct (Marshal obj) as [err|bytes] eqn:Hobj.
    + split; [by intros [? ?]|]. intros Hall.
      apply Forall_cons in Hall as [[bytes Hbytes] _]. simpl in Hbytes.
      congruence.
    + rewrite IH. split.
      * intros Hall. constructor; [by exists bytes|done].
      * intros Hall. by apply Forall_cons in Hall as [_ ?].
Qed.

(** A failing loop returns the error of one of the objects. *)
Lemma marshalLoop_inl enumeration content err :
  marshalLoop enumeration content = inl err →
  ∃ key obj, (key, obj) ∈ enumeration ∧ Marshal obj = inl err.
Proof.
  revert content.
  induction enumeration as [|[key obj] rest IH]; intros content; simpl; [done|].
  destruct (Marshal obj) as [err'|bytes] eqn:Hobj.
  - intros [= ->]. exists key, obj. split; [left|done].
  - intros Hrest. destruct (IH _ Hrest) as (key' & obj' & Hin & Herr).
    exists key', obj'. split; [by right|done].
Qed.

Lemma enumerates_lookup (objects : gmap string Object) enumeration key obj :
  enumerates objects enumeration →
  (key, obj) ∈ enumeration ↔ objects !! key = Some obj.
Proof.
  unfold enumerates. intros ->. apply elem_of_map_to_list.
Qed.

(** X15: if one object of the map does not marshal, then for every order
    of enumeration apply and delete start no command and return the
    marshalling error of an object of the map. *)
Theorem marshal_failure_starts_nothing
    (objects : gmap string Object) key obj err result :
  objects !! key = Some obj → Marshal obj = inl err →
  KubectlApplyRuntimeObjects objects result ∨
  KubectlDeleteRuntimeObjects objects result →
  result.1 = [] ∧
  ∃ key' obj' err',
    objects !! key' = Some obj' ∧ Marshal obj' = inl err' ∧
    result.2 = Returned (Some err').
Proof.
  intros Hobj Herr Hcall.
  assert (∃ enumeration failure kubeArgs,
            enumerates objects enumeration ∧
            result = pipeObjects failure kubeArgs enumeration)
    as (enumeration & failure & kubeArgs & Henum & ->).
  { destruct Hcall as [(e & He & ->)|(e & He & ->)]; by eexists _, _, _. }
  unfold pipeObjects.
  destruct (marshalLoop enumeration "") as [err'|content] eqn:Hloop.
  - split; [done|].
    apply marshalLoop_inl in Hloop as (key' & obj' & Hin & Herr').
    exists key', obj', err'. split; [|done].
    by apply (enumerates_lookup objects enumeration).
  - exfalso.
    assert (Forall (λ entry, ∃ bytes, Marshal entry.2 = inr bytes) enumeration)
      as Hall by (apply (marshalLoop_succeeds _ ""); by eexists).
    rewrite Forall_forall in Hall.
    destruct (Hall (key, obj)) as [bytes Hbytes].
    + by apply (enumerates_lookup objects enumeration).
    + simpl in Hbytes. congruence.
Qed.

Lemma append_length (s1 s2 : string) :
  String.length (s1 +:+ s2) = (String.length s1 + String.length s2)%nat.
Proof.
  induction s1 as [|c s1 IH]; [done|].
  rewrite DispatchTheory.append_cons. simpl. by rewrite IH.
Qed.

Lemma concat_length_Permutation (chunks1 chunks2 : list string) :
  chunks1 ≡ₚ chunks2 →
  String.length (foldr String.append "" chunks1) =
  String.length (foldr String.append "" chunks2).
Proof.
  induction 1 as [|chunk l1 l2 _ IH|c1 c2 l|l1 l2 l3 _ IH1 _ IH2]; simpl.
  - done.
  - by rewrite !append_length, IH.
  - rewrite !append_length. lia.
  - congruence.
Qed.

(** X16: two payloads of the same map are concatenations of the same
    chunks in two orders: each is the concatenation, along an enumeration
    of the map, of the marshalled bytes of the entries, and the two lists
    of chunks are permutations of each other; in particular the payloads
    have the same length. *)
Theorem payloads_agree_up_to_order
    (objects : gmap string Object) (p q : string) :
  payload objects p → payload objects q →
  ∃ enumeration1 enumeration2 chunks1 chunks2,
    enumerates objects enumeration1 ∧
    enumerates objects enumeration2 ∧
    Forall2 (λ entry chunk, Marshal entry.2 = inr chunk) enumeration1 chunks1 ∧
    Forall2 (λ entry chunk, Marshal entry.2 = inr chunk) enumeration2 chunks2 ∧
    chunks1 ≡ₚ chunks2 ∧
    p = foldr String.append "" chunks1 ∧
    q = foldr String.append "" chunks2 ∧
    String.length p = String.length q.
Proof.
  intros (e1 & Hperm1 & Hloop1) (e2 & Hperm2 & Hloop2).
  apply DispatchTheory.marshalLoop_inr in Hloop1 as (chunks1 & Hall1 & ->).
  apply DispatchTheory.marshalLoop_inr in Hloop2 as (chunks2 & Hall2 & ->).
  assert (chunks1 ≡ₚ chunks2) as Hchunks.
  { rewrite (chunks_omap _ _ Hall1), (chunks_omap _ _ Hall2).
    unfold enumerates in *. by rewrite Hperm1, Hperm2. }
  exists e1, e2, chunks1, chunks2.
  repeat split; try done.
  by apply concat_length_Permutation.
Qed.

(** X17: whether the objects can be piped does not depend on the order of
    enumeration: if one order yields a payload, every order does. *)
Theorem payload_for_every_enumeration
    (objects : gmap string Object) (p : string) enumeration :
  payload objects p → enumerates objects enumeration →
  ∃ q, marshalLoop enumeration "" = inr q ∧ payload objects q.
Proof.
  intros (e & Hperm & Hloop) Henum.
  assert (∃ q, marshalLoop enumeration "" = inr q) as [q Hq].
  { apply marshalLoop_succeeds.
    assert (enumeration ≡ₚ e) as ->
      by (unfold enumerates in *; by rewrite Hperm, Henum).
    apply (marshalLoop_succeeds _ ""). by eexists. }
  exists q. split; [done|]. by exists enumeration.
Qed.

(** X18: a map with no object or with one object has a single payload:
    the empty one, or the bytes of its object. *)
Theorem payload_of_small_maps key obj (content : string) :
  (payload (∅ : gmap string Object) content ↔ content = "") ∧
  (payload ({[key := obj]} : gmap string Object) content ↔
   Marshal obj = inr content).
Proof.
  unfold payload, enumerates. split.
  - split.
    + intros (e & He & Hloop). rewrite map_to_list_empty in He.
      apply Permutation_nil_r in He as ->. simpl in Hloop. congruence.
    + intros ->. exists []. by rewrite map_to_list_empty.
  - split.
    + intros (e & He & Hloop). rewrite map_to_list_singleton in He.
      apply Permutation_singleton_r in He as ->. simpl in Hloop.
      destruct (Marshal obj) as [err|bytes]; [done|]. simpl in Hloop.
      injection Hloop as <-. done.
    + intros Hobj. exists [(key, obj)]. rewrite map_to_list_singleton.
      split; [done|]. simpl. by rewrite Hobj.
Qed.

(** X19: when a client is determined and the pipe opens, apply and delete
    start exactly one command: the client with the global flags and then
    apply --validate=false -f -, respectively delete -f -, fed with the
    content of the loop; the status substitution never touches them. *)
Theorem objects_are_piped_to_the_client enumeration content :
  DetermineClusterClients restconfig kubeClient ≠ (false, false) →
  (∀ cmd, StdinPipe cmd = None) →
  marshalLoop enumeration "" = inr content →
  let client :=
    if (DetermineClusterClients restconfig kubeClient).2
    then "oc" else "kubectl" in
  (KubectlApplyRuntimeObjectsIn enumeration).1 =
    [(Command client (globalFlags ++ ["apply"; "--validate=false"; "-f"; "-"]),
      Piped content)] ∧
  (KubectlDeleteRuntimeObjectsIn enumeration).1 =
    [(Command client (globalFlags ++ ["delete"; "-f"; "-"]), Piped content)].
Proof.
  intros Hkind Hpipe Hloop client. subst client.
  unfold KubectlApplyRuntimeObjectsIn, KubectlDeleteRuntimeObjectsIn,
    pipeObjects, RunKubeCmdWithStdin.
  rewrite Hloop, !DispatchTheory.getKubeExecCmd_cons.
  destruct (DetermineClusterClients restconfig kubeClient) as [[] []];
    simpl; try done; rewrite !Hpipe; simpl;
    by repeat destruct (CombinedOutput _ _) as [? [?|]].
Qed.

(** X20: when no client is determined, apply and delete start nothing:
    if an object does not marshal they return its marshalling error as it
    is, and otherwise the detector's error wrapped in their own message,
    with an empty output. *)
Theorem objects_without_client enumeration :
  DetermineClusterClients restconfig kubeClient = (false, false) →
  KubectlApplyRuntimeObjectsIn enumeration =
    ([], Returned (Some
       match marshalLoop enumeration "" with
       | inl err => err
       | inr _ => "failed to deploy Runtime Object: " +:+ "" +:+
                  " : " +:+ undetermined
       end)) ∧
  KubectlDeleteRuntimeObjectsIn enumeration =
    ([], Returned (Some
       match marshalLoop enumeration "" with
       | inl err => err
       | inr _ => "failed to delete Runtime Object: " +:+ "" +:+
                  " : " +:+ undetermined
       end)).
Proof.
  intros Hkind.
  unfold KubectlApplyRuntimeObjectsIn, KubectlDeleteRuntimeObjectsIn,
    pipeObjects.
  destruct (marshalLoop enumeration "") as [err|content]; [done|].
  by rewrite !DispatchTheory.RunKubeCmdWithStdin_undetermined.
Qed.

End WithHost.

Import Fixture Samples.

Lemma detector_selects_installed_client_witness :
  let H := host true false true false "" in
  LookPath "kubectl" = None.
Proof.
  intros H.
  destruct (detector_selects_installed_client (H := H) tt tt) as [Hkube _].
  apply Hkube. reflexivity.
Defined.

Lemma detector_follows_cluster_witness :
  let H := host true true true false "" in
  DetermineClusterClients tt tt = (false, true).
Proof.
  intros H.
  exact (detector_follows_cluster (H := H) tt tt eq_refl eq_refl).
Defined.

Lemma detector_falls_back_witness :
  let H := host true false true false "" in
  DetermineClusterClients tt tt = (true, false).
Proof.
  intros H.
  destruct (detector_falls_back (H := H) tt tt) as [Hkubectl _].
  apply Hkubectl; [reflexivity|discriminate].
Defined.

Lemma getKubeExecCmd_command_xor_error_witness :
  let H := host false false false false "" in
  getKubeExecCmd tt tt ["get"; "pods"] = Returned (None, Some undetermined) ∧
  isNil (@None Cmd) = negb (isNil (Some undetermined)).
Proof.
  intros H.
  assert (getKubeExecCmd tt tt ["get"; "pods"] =
          Returned (None, Some undetermined)) as Hcall by reflexivity.
  split; [exact Hcall|].
  exact (proj1 (getKubeExecCmd_command_xor_error (H := H) tt tt
                  ["get"; "pods"] None (Some undetermined) Hcall)).
Defined.

Lemma getKubeExecCmd_command_shape_witness :
  let H := host true false false true "/etc/kube" in
  ∃ first,
    ["kubectl"; "--kubeconfig=/etc/kube"; "--insecure-skip-tls-verify=true";
     "get"; "pods"] =
    "kubectl" :: globalFlags ++ first :: ["pods"].
Proof.
  intros H.
  destruct (getKubeExecCmd_command_shape (H := H) tt tt ["get"; "pods"]
              (mkCmd "kubectl"
                 ["kubectl"; "--kubeconfig=/etc/kube";
                  "--insecure-skip-tls-verify=true"; "get"; "pods"])
              None eq_refl)
    as (_ & _ & first & Hargs & _).
  exists first. exact Hargs.
Defined.

Lemma capturing_helpers_do_not_panic_witness :
  let H := host false true true false "" in
  ∃ r, (RunKubeCmd tt tt ["cluster-info"]).2 = Returned r.
Proof.
  intros H.
  destruct (capturing_helpers_do_not_panic (H := H) tt tt "" ["cluster-info"])
    as (Hrun & _); [discriminate|].
  exact Hrun.
Defined.

Lemma editor_runs_the_same_command_witness :
  let H := host false true true false "" in
  RunKubeEditorCmd tt tt ["edit"; "blackduck"] =
  ([(mkCmd "oc" ["oc"; "edit"; "blackduck"], Interactive)], Returned None).
Proof.
  intros H.
  exact (editor_runs_the_same_command (H := H) tt tt ["edit"; "blackduck"]
           (mkCmd "oc" ["oc"; "edit"; "blackduck"]) eq_refl).
Defined.

Lemma marshal_failure_starts_nothing_witness :
  (@KubectlApplyRuntimeObjectsIn strictHost
     [("a", "{1}"); ("b", "channel")]).1 = [].
Proof.
  refine (proj1 (marshal_failure_starts_nothing (H := strictHost)
                   mixedObjects "b" "channel"
                   "json: unsupported type: chan int" _ _ _ _)).
  - vm_compute. reflexivity.
  - reflexivity.
  - left. exists [("a", "{1}"); ("b", "channel")]. split; [|reflexivity].
    unfold enumerates. vm_compute. reflexivity.
Defined.

Lemma payloads_agree_up_to_order_witness :
  String.length "{1}{2}" = String.length "{2}{1}".
Proof.
  destruct (payloads_agree_up_to_order
              (H := host true false false false "")
              twoObjects "{1}{2}" "{2}{1}")
    as (e1 & e2 & chunks1 & chunks2 & _ & _ & _ & _ & _ & _ & _ & Hlength).
  - exists [("a", "{1}"); ("b", "{2}")]. split; [|reflexivity].
    unfold enumerates. vm_compute. reflexivity.
  - exists [("b", "{2}"); ("a", "{1}")]. split; [|reflexivity].
    unfold enumerates. vm_compute. apply perm_swap.
  - exact Hlength.
Defined.

Lemma payload_for_every_enumeration_witness :
  let H := host true false false false "" in
  ∃ q, marshalLoop [("b", "{2}"); ("a", "{1}")] "" = inr q ∧
       payload twoObjects q.
Proof.
  intros H.
  refine (payload_for_every_enumeration (H := H) twoObjects "{1}{2}"
            [("b", "{2}"); ("a", "{1}")] _ _).
  - exists [("a", "{1}"); ("b", "{2}")]. split; [|reflexivity].
    unfold enumerates. vm_compute. reflexivity.
  - unfold enumerates. vm_compute. apply perm_swap.
Defined.

Lemma objects_are_piped_to_the_client_witness :
  let H := host true false false false "/etc/kube" in
  (KubectlApplyRuntimeObjectsIn [("a", "{1}"); ("b", "{2}")]).1 =
  [(mkCmd "kubectl"
      ["kubectl"; "--kubeconfig=/etc/kube"; "apply"; "--validate=false";
       "-f"; "-"],
    Piped "{1}{2}")].
Proof.
  intros H.
  destruct (objects_are_piped_to_the_client (H := H)
              [("a", "{1}"); ("b", "{2}")] "{1}{2}") as [Happly _].
  - discriminate.
  - reflexivity.
  - reflexivity.
  - exact Happly.
Defined.

Lemma objects_without_client_witness :
  let H := host false false true false "" in
  KubectlDeleteRuntimeObjectsIn [("a", "{1}")] =
  ([], Returned (Some ("failed to delete Runtime Object:  : " +:+ undetermined))).
Proof.
  intros H.
  destruct (objects_without_client (H := H) [("a", "{1}")] eq_refl)
    as [_ Hdelete].
  exact Hdelete.
Defined.

End DispatchLaws.

(** ** The configuration helpers *)

Module SettingsTheory.
Import Settings.
Import Synopsysctl (outcome, Returned, Panicked, NilPointerDereference).

Section WithSystem.
Context `{System}.

Implicit Types (flags : gmap string Flag) (path : string).

(** X21: the kubeconfig path is left as it is when the flag was given on
    the command line, whatever KUBECONFIG holds, and when the flag was not
    given and KUBECONFIG is unset. *)
Theorem kubeconfig_path_kept flags flag path :
  flags !! "kubeconfig" = Some flag →
  Changed flag = true ∨ environ !! "KUBECONFIG" = None →
  ∃ err, setGlobalKubeConfigPath flags path = Returned (path, err).
Proof.
  intros Hflag Hkept. unfold setGlobalKubeConfigPath, LookupEnv.
  rewrite Hflag.
  assert ((if negb (Changed flag)
           then match environ !! "KUBECONFIG" with
                | Some v => v
                | None => path
                end
           else path) = path) as ->.
  { destruct Hkept as [->| ->]; [done|]. by destruct (negb _). }
  destruct (negb (path =? "") && StatNotExist path); by eexists.
Qed.

(** X22: when the flag was not given and KUBECONFIG is set, its value
    becomes the path, also when it is empty and also when the call then
    fails because no file is there. *)
Theorem kubeconfig_path_from_environment flags flag path value :
  flags !! "kubeconfig" = Some flag → Changed flag = false →
  environ !! "KUBECONFIG" = Some value →
  ∃ err, setGlobalKubeConfigPath flags path = Returned (value, err).
Proof.
  intros Hflag Hunchanged Henv. unfold setGlobalKubeConfigPath, LookupEnv.
  rewrite Hflag, Hunchanged, Henv. simpl.
  destruct (negb (value =? "") && StatNotExist value); by eexists.
Qed.

(** X23: [setGlobalKubeConfigPath] returns no error exactly when the path
    it leaves is empty or is not reported missing; its error names that
    path. *)
Theorem kubeconfig_path_checked flags path path' err :
  setGlobalKubeConfigPath flags path = Returned (path', err) →
  (err = None ↔ path' = "" ∨ StatNotExist path' = false) ∧
  (err ≠ None →
   err = Some ("the kubeconfig path '" +:+ path' +:+
               "' does not point to a file")).
Proof.
  unfold setGlobalKubeConfigPath.
  destruct (flags !! "kubeconfig") as [flag|]; [|done].
  match goal with |- context [negb (?p =? "") && _] => set (chosen := p) end.
  destruct (String.eqb_spec chosen "") as [Hempty|Hfull]; simpl.
  - intros [= <- <-]. split; [|done]. split; [by left|done].
  - destruct (StatNotExist chosen) eqn:Hmissing; intros [= <- <-].
    + split; [|done]. split; [done|]. intros [?|?]; congruence.
    + split; [|done]. split; [by right|done].
Qed.

(** X24: either helper panics exactly when the flag it reads is not
    registered in the flag set. *)
Theorem unregistered_flag_panics flags path chartName appVersion chartVariable :
  (setGlobalKubeConfigPath flags path = Panicked NilPointerDereference ↔
   flags !! "kubeconfig" = None) ∧
  (UpdateHelmChartLocation flags chartName appVersion chartVariable =
     Panicked NilPointerDereference ↔
   flags !! "app-resources-path" = None).
Proof.
  unfold setGlobalKubeConfigPath, UpdateHelmChartLocation. split.
  - destruct (flags !! "kubeconfig") as [flag|]; [|done].
    by destruct (negb _ && _).
  - destruct (flags !! "app-resources-path") as [flag|]; [|done].
    destruct (Changed flag); [done|].
    destruct (bool_decide _); [|done].
    by destruct (GetLatestChartURLForAppVersion _ _ _).
Qed.

(** X25: the kubeconfig handed to the loader is the explicit path when
    there is one; else the file .kube/config under HOME, or under
    USERPROFILE when HOME is unset or empty; else the empty path. *)
Theorem kubeconfig_location_precedence path :
  (path ≠ "" → kubeconfigLocation path = path) ∧
  (Getenv "HOME" ≠ "" →
   kubeconfigLocation "" = Join [Getenv "HOME"; ".kube"; "config"]) ∧
  (Getenv "HOME" = "" → Getenv "USERPROFILE" ≠ "" →
   kubeconfigLocation "" = Join [Getenv "USERPROFILE"; ".kube"; "config"]) ∧
  (Getenv "HOME" = "" → Getenv "USERPROFILE" = "" →
   kubeconfigLocation "" = "").
Proof.
  unfold kubeconfigLocation, homeDir. repeat split.
  - intros Hpath. destruct path; [done|]. reflexivity.
  - intros Hhome. simpl.
    destruct (String.eqb_spec (Getenv "HOME") ""); [done|]. simpl.
    by destruct (String.eqb_spec (Getenv "HOME") "").
  - intros -> Hprofile. simpl.
    by destruct (String.eqb_spec (Getenv "USERPROFILE") "").
  - intros -> ->. reflexivity.
Qed.

(** X26: a chart location given on the command line wins: it becomes the
    chart variable, no error is returned, and neither the application
    version nor the chart index matters. *)
Theorem chart_flag_wins flags flag chartName appVersion chartVariable :
  flags !! "app-resources-path" = Some flag → Changed flag = true →
  UpdateHelmChartLocation flags chartName appVersion chartVariable =
  Returned (Value flag, None).
Proof.
  intros Hflag Hchanged. unfold UpdateHelmChartLocation.
  by rewrite Hflag, Hchanged.
Qed.

(** X27: the chart variable changes only on success: when
    [UpdateHelmChartLocation] returns an error the variable is as before
    and the error names the chart, and without a flag and without an
    application version the variable is as before with no error. *)
Theorem chart_variable_kept flags flag chartName appVersion chartVariable :
  flags !! "app-resources-path" = Some flag →
  (∀ value err,
     UpdateHelmChartLocation flags chartName appVersion chartVariable =
       Returned (value, Some err) →
     value = chartVariable ∧
     ∃ cause, err = "failed to get resources version for '" +:+ chartName +:+
                    "': " +:+ cause) ∧
  (Changed flag = false → appVersion = "" →
   UpdateHelmChartLocation flags chartName appVersion chartVariable =
     Returned (chartVariable, None)).
Proof.
  intros Hflag. unfold UpdateHelmChartLocation. rewrite Hflag. split.
  - intros value err. destruct (Changed flag); [done|].
    destruct (bool_decide _); [|done].
    destruct (GetLatestChartURLForAppVersion _ _ _) as [cause|url]; [|done].
    intros [= <- <-]. split; [done|]. by exists cause.
  - by intros -> ->.
Qed.

End WithSystem.

Lemma prefix_occurs (old s : string) :
  String.prefix old s = true ↔ ∃ after, s = old +:+ after.
Proof.
  revert s. induction old as [|c old IH]; intros s.
  - split; [|by destruct s]. intros _. by exists s.
  - destruct s as [|c' s]; simpl.
    + split; [done|]. intros [after Hafter].
      rewrite DispatchTheory.append_cons in Hafter. done.
    + destruct (Ascii.ascii_dec c c') as [->|Hne].
      * rewrite IH. split.
        -- intros [after ->]. by exists after.
        -- intros [after Hafter].
           rewrite DispatchTheory.append_cons in Hafter.
           injection Hafter as ->. by exists after.
      * split; [done|]. intros [after Hafter].
        rewrite DispatchTheory.append_cons in Hafter. congruence.
Qed.

Lemma dropString_append (old after : string) :
  dropString (String.length old) (old +:+ after) = after.
Proof.
  induction old as [|c old IH]; [reflexivity|].
  rewrite DispatchTheory.append_cons. simpl. exact IH.
Qed.

Lemma ReplaceFirst_unfold s old new :
  ReplaceFirst s old new =
  if String.prefix old s
  then new +:+ dropString (String.length old) s
  else match s with
       | EmptyString => EmptyString
       | String c rest => String c (ReplaceFirst rest old new)
       end.
Proof. by destruct s. Qed.

(** Replacing in a string without an instance of [old] changes nothing. *)
Lemma ReplaceFirst_absent s old new :
  (∀ before, ¬ occursAfter old s before) → ReplaceFirst s old new = s.
Proof.
  induction s as [|c s IH]; intros Habsent; rewrite ReplaceFirst_unfold.
  - destruct (String.prefix old "") eqn:Hprefix; [|done].
    apply prefix_occurs in Hprefix as [after Hafter].
    destruct (Habsent ""). by exists after.
  - destruct (String.prefix old (String c s)) eqn:Hprefix.
    + apply prefix_occurs in Hprefix as [after Hafter].
      destruct (Habsent ""). by exists after.
    + f_equal. apply IH. intros before [after ->].
      apply (Habsent (String c before)). by exists after.
Qed.

(** The leftmost instance is the one replaced. *)
Lemma ReplaceFirst_leftmost before old new after :
  (∀ before', occursAfter old (before +:+ old +:+ after) before' →
              String.length before ≤ String.length before')%nat →
  ReplaceFirst (before +:+ old +:+ after) old new = before +:+ new +:+ after.
Proof.
  induction before as [|c before IH]; intros Hleft; rewrite ReplaceFirst_unfold.
  - change ("" +:+ old +:+ after) with (old +:+ after).
    change ("" +:+ new +:+ after) with (new +:+ after).
    assert (String.prefix old (old +:+ after) = true) as ->
      by (apply prefix_occurs; by exists after).
    by rewrite dropString_append.
  - rewrite !DispatchTheory.append_cons.
    destruct (String.prefix old (String c (before +:+ old +:+ after)))
      eqn:Hprefix.
    + apply prefix_occurs in Hprefix as [after' Hafter'].
      specialize (Hleft "").
      rewrite DispatchTheory.append_cons in Hleft. simpl in Hleft.
      assert (S (String.length before) ≤ 0)%nat; [|lia].
      apply Hleft. by exists after'.
    + f_equal. apply IH. intros before' [after' Hocc].
      specialize (Hleft (String c before')). simpl in Hleft.
      apply le_S_n, Hleft. exists after'.
      by rewrite !DispatchTheory.append_cons, Hocc.
Qed.

(** X28: an error text that does not mention the release is returned as
    it is. *)
Theorem clean_error_without_release errString releaseName alertName :
  (∀ before,
     ¬ occursAfter ("release '" +:+ releaseName +:+ "'") errString before) →
  cleanAlertHelmError errString releaseName alertName = errString.
Proof. apply ReplaceFirst_absent. Qed.

(** X29: in an error text that mentions the release, the leftmost mention
    is replaced by the mention of the instance and the text before and
    after it, later mentions included, is kept. *)
Theorem clean_error_replaces_leftmost before after releaseName alertName :
  let helmName := "release '" +:+ releaseName +:+ "'" in
  (∀ before',
     occursAfter helmName (before +:+ helmName +:+ after) before' →
     String.length before ≤ String.length before')%nat →
  cleanAlertHelmError (before +:+ helmName +:+ after) releaseName alertName =
  before +:+ ("instance '" +:+ alertName +:+ "'") +:+ after.
Proof. intros helmName. apply ReplaceFirst_leftmost. Qed.

Import Cases.

Lemma kubeconfig_path_kept_witness :
  let H := system (envWith "KUBECONFIG" "/env/config") [] in
  ∃ err,
    setGlobalKubeConfigPath (flagsWith "kubeconfig" true "/cli/config")
      "/cli/config" = Returned ("/cli/config", err).
Proof.
  intros H.
  apply (kubeconfig_path_kept (H := H) _ (mkFlag true "/cli/config")).
  - vm_compute. reflexivity.
  - left. reflexivity.
Defined.

Lemma kubeconfig_path_from_environment_witness :
  let H := system (envWith "KUBECONFIG" "/env/config") ["/env/config"] in
  ∃ err,
    setGlobalKubeConfigPath (flagsWith "kubeconfig" false "")
      "/old/config" = Returned ("/env/config", err).
Proof.
  intros H.
  apply (kubeconfig_path_from_environment (H := H) _ (mkFlag false "")).
  - vm_compute. reflexivity.
  - reflexivity.
  - vm_compute. reflexivity.
Defined.

Lemma kubeconfig_path_checked_witness :
  let H := system (envWith "KUBECONFIG" "/env/config") ["/env/config"] in
  Some "the kubeconfig path '/env/config' does not point to a file" =
  Some ("the kubeconfig path '" +:+ "/env/config" +:+
        "' does not point to a file").
Proof.
  intros H.
  refine (proj2 (kubeconfig_path_checked (H := H)
                   (flagsWith "kubeconfig" false "") "/old/config"
                   "/env/config"
                   (Some "the kubeconfig path '/env/config' does not point to a file")
                   _) _).
  - vm_compute. reflexivity.
  - discriminate.
Defined.

Lemma kubeconfig_location_precedence_witness :
  let H := system (envWith "USERPROFILE" "C:/Users/u") [] in
  kubeconfigLocation "" = "C:/Users/u/.kube/config" ∧
  kubeconfigLocation "/cli/config" = "/cli/config".
Proof.
  intros H.
  destruct (kubeconfig_location_precedence (H := H) "/cli/config")
    as (Hexplicit & _ & Hprofile & _).
  split.
  - rewrite Hprofile; [reflexivity|reflexivity|discriminate].
  - apply Hexplicit. discriminate.
Defined.

Lemma chart_flag_wins_witness :
  let H := system ∅ [] in
  UpdateHelmChartLocation
    (flagsWith "app-resources-path" true "/charts/blackduck.tgz")
    "blackduck" "0" "https://old" =
  Returned ("/charts/blackduck.tgz", None).
Proof.
  intros H.
  apply (chart_flag_wins (H := H) _ (mkFlag true "/charts/blackduck.tgz")).
  - vm_compute. reflexivity.
  - reflexivity.
Defined.

Lemma chart_variable_kept_witness :
  let H := system ∅ [] in
  UpdateHelmChartLocation (flagsWith "app-resources-path" false "")
    "blackduck" "" "https://old" = Returned ("https://old", None) ∧
  "https://old" = "https://old".
Proof.
  intros H.
  destruct (chart_variable_kept (H := H)
              (flagsWith "app-resources-path" false "")
              (mkFlag false "") "blackduck" "" "https://old")
    as [_ Hidle]; [vm_compute; reflexivity|].
  destruct (chart_variable_kept (H := H)
              (flagsWith "app-resources-path" false "")
              (mkFlag false "") "blackduck" "0" "https://old")
    as [Hfailed _]; [vm_compute; reflexivity|].
  split.
  - apply Hidle; reflexivity.
  - symmetry.
    apply (Hfailed "https://old"
             "failed to get resources version for 'blackduck': no chart").
    vm_compute. reflexivity.
Defined.

Lemma clean_error_without_release_witness :
  cleanAlertHelmError "timed out" "alert-1" "my-alert" = "timed out".
Proof.
  apply clean_error_without_release.
  intros before [after Hocc].
  apply (f_equal String.length) in Hocc.
  rewrite !DispatchLaws.append_length in Hocc. simpl in Hocc. lia.
Defined.

Lemma clean_error_replaces_leftmost_witness :
  cleanAlertHelmError "release 'alert-1' failed: release 'alert-1' exists"
    "alert-1" "my-alert" =
  "instance 'my-alert' failed: release 'alert-1' exists".
Proof.
  apply (clean_error_replaces_leftmost ""
           " failed: release 'alert-1' exists" "alert-1" "my-alert").
  intros before' _. simpl. lia.
Defined.

End SettingsTheory.
